(** * Publication review pipeline: reconciliation core

    A shallow embedding of the two pipeline scripts of the lab website
    and the properties of their reconciliation logic:

    - [scripts/fetch-publications.js]: [normalizeTitle],
      [publicationExists], [generateIssueBody] and the de-duplication and
      filtering steps of its [main];
    - the approval handler (called by the approve-publication workflow):
      [parseCommand], [parseIssueBody], [generateId], [loadPublications],
      [savePublications] and its [main].

    JavaScript strings are sequences of UTF-16 code units; a code unit is
    an [N].  The regular expressions of the handler are terms of a small
    regex syntax run by a backtracking matcher with JavaScript's
    priorities (leftmost start, greedy quantifiers, alternatives left to
    right). *)

From stdpp Require Import gmap list strings.
From Stdlib Require Import NArith ZArith Lia.

Set Warnings "-clear-no-such-hyp".

Local Open Scope N_scope.

(** ** Strings *)

Definition str := list N.

(** A literal of the source, as code units (the literals are ASCII). *)
Definition js (s : string) : str :=
  (λ a, Ascii.N_of_ascii a) <$> String.list_ascii_of_string s.

Definition nl : str := [10].

(** [\s] of a JavaScript regex, also the set [String.prototype.trim]
    strips: WhiteSpace and LineTerminator code points. *)
Definition is_ws (c : N) : bool :=
  (c =? 9) || (c =? 10) || (c =? 11) || (c =? 12) || (c =? 13) || (c =? 32)
  || (c =? 0xA0) || (c =? 0x1680) || ((0x2000 <=? c) && (c <=? 0x200A))
  || (c =? 0x2028) || (c =? 0x2029) || (c =? 0x202F) || (c =? 0x205F)
  || (c =? 0x3000) || (c =? 0xFEFF).

Definition not_ws (c : N) : bool := negb (is_ws c).

(** LineTerminator; [.] matches every code unit but these. *)
Definition is_lt (c : N) : bool :=
  (c =? 10) || (c =? 13) || (c =? 0x2028) || (c =? 0x2029).

Definition dot (c : N) : bool := negb (is_lt c).

(** [\d] *)
Definition is_digit (c : N) : bool := (48 <=? c) && (c <=? 57).

Definition is_lower (c : N) : bool := (97 <=? c) && (c <=? 122).
Definition is_upper (c : N) : bool := (65 <=? c) && (c <=? 90).

Definition str_eqb (a b : str) : bool := bool_decide (a = b).

(** [s.trim()] *)
Fixpoint trimStart (s : str) : str :=
  match s with
  | c :: s' => if is_ws c then trimStart s' else s
  | [] => []
  end.

Fixpoint trimEnd (s : str) : str :=
  match s with
  | [] => []
  | c :: s' =>
      match trimEnd s' with
      | [] => if is_ws c then [] else [c]
      | t => c :: t
      end
  end.

Definition trim (s : str) : str := trimEnd (trimStart s).

(** [s.replace(c, '')] with a one-character string pattern: the first
    occurrence goes. *)
Fixpoint replaceFirst (c : N) (s : str) : str :=
  match s with
  | [] => []
  | x :: s' => if x =? c then s' else x :: replaceFirst c s'
  end.

(** A JavaScript value used as a condition: [null] and the empty string
    are falsy. *)
Definition truthy (o : option str) : bool :=
  match o with
  | Some (_ :: _) => true
  | _ => false
  end.

(** [a || b] on a nullable string and a string. *)
Definition orElse (o : option str) (d : str) : str :=
  match o with
  | Some (c :: s) => c :: s
  | _ => d
  end.

(** ** Numbers in templates and [parseInt] *)

Fixpoint digitsFuel (fuel : nat) (n : N) (acc : str) : str :=
  match fuel with
  | O => acc
  | S fuel' =>
      let acc' := (48 + n mod 10) :: acc in
      if n <? 10 then acc' else digitsFuel fuel' (n / 10) acc'
  end.

Definition showN (n : N) : str := digitsFuel (S (N.to_nat (N.log2 n))) n [].

(** [`${z}`] for an integer number [z]: decimal digits, with a sign for
    negative values (Number::toString for integers below 10^21). *)
Definition showNumber (z : Z) : str :=
  if (z <? 0)%Z then 45 :: showN (Z.to_N (- z)) else showN (Z.to_N z).

(** The longest run of [p] at the start of [s], and the rest. *)
Fixpoint run (p : N → bool) (s : str) : str :=
  match s with
  | c :: s' => if p c then c :: run p s' else []
  | [] => []
  end.

Fixpoint afterRun (p : N → bool) (s : str) : str :=
  match s with
  | c :: s' => if p c then afterRun p s' else s
  | [] => []
  end.

(** The number a run of digits stands for, continuing from [a]. *)
Definition digitsValue (s : str) (a : N) : N :=
  fold_left (λ a c, a * 10 + (c - 48)) s a.

(** [parseInt(s)] for a string that starts with a decimal digit (the only
    argument it gets here is the capture of [(\d+)]): the value of the
    leading digits.  The result is exact below 2^53. *)
Definition parseInt (s : str) : Z :=
  Z.of_N (digitsValue (run is_digit s) 0).

(** ** Regular expressions *)

Inductive regex : Type :=
| Eps
| Chr (c : N)
| Star (p : N → bool)
| Plus (p : N → bool)
| Cat (r1 r2 : regex)
| Alt (r1 r2 : regex)
| Grp (r : regex).

(** The pattern of a literal text. *)
Fixpoint lit (l : str) : regex :=
  match l with
  | [] => Eps
  | c :: l' => Cat (Chr c) (lit l')
  end.

(** Canonicalize of the [i] flag on ASCII: a lower-case letter stands for
    its upper-case one.  A code unit above 127 never canonicalizes to an
    ASCII one, so against the ASCII characters of the patterns below the
    comparison is the engine's. *)
Definition canon (c : N) : N := if is_lower c then c - 32 else c.

Definition chr_eq (ci : bool) (c x : N) : bool :=
  if ci then canon c =? canon x else c =? x.

(** Greedy [p*] followed by the continuation [k]: the longest run first,
    giving back one code unit at a time when [k] fails. *)
Fixpoint star {A} (p : N → bool) (s : str) (k : str → option A) : option A :=
  match s with
  | c :: s' =>
      if p c then
        match star p s' k with
        | Some r => Some r
        | None => k s
        end
      else k s
  | [] => k []
  end.

(** The backtracking matcher, in continuation-passing style: [caps] are
    the captures so far (group 1 first), [k] is what has to match after
    [r]. *)
Fixpoint rmatch (ci : bool) (r : regex) (s : str) (caps : list str)
    (k : str → list str → option (list str)) : option (list str) :=
  match r with
  | Eps => k s caps
  | Chr c =>
      match s with
      | x :: s' => if chr_eq ci c x then k s' caps else None
      | [] => None
      end
  | Star p => star p s (λ s', k s' caps)
  | Plus p =>
      match s with
      | x :: s' => if p x then star p s' (λ s'', k s'' caps) else None
      | [] => None
      end
  | Cat r1 r2 => rmatch ci r1 s caps (λ s' caps', rmatch ci r2 s' caps' k)
  | Alt r1 r2 =>
      match rmatch ci r1 s caps k with
      | Some x => Some x
      | None => rmatch ci r2 s caps k
      end
  | Grp r1 =>
      rmatch ci r1 s caps
        (λ s' caps', k s' (caps' ++ [take (length s - length s') s]))
  end.

Definition match_at (ci : bool) (r : regex) (s : str) : option (list str) :=
  rmatch ci r s [] (λ _ caps, Some caps).

(** [s.match(r)] for a regex without the [g] flag: the captures of the
    leftmost match ([m[1]], [m[2]], ...), or [None] for [null]. *)
Fixpoint jsmatch (ci : bool) (r : regex) (s : str) : option (list str) :=
  match match_at ci r s with
  | Some caps => Some caps
  | None =>
      match s with
      | [] => None
      | _ :: s' => jsmatch ci r s'
      end
  end.

(** [m[i]] of a match (groups count from 1). *)
Definition group (i : nat) (caps : list str) : str :=
  default [] (caps !! (i - 1)%nat).

(** ** Data model *)

Inductive Source := orcid | pubmed.

(** A record of a fetch cycle.  ORCID records carry no [authors] field;
    [year], [doi] and [pmid] are [null] when the provider has none. *)
Record PublicationRecord := {
  title : str;
  authors : option str;
  journal : str;
  year : option Z;
  doi : option str;
  pmid : option str;
  source : Source
}.

(** What [parseIssueBody] returns. *)
Record PubDetails := {
  d_title : str;
  d_authors : str;
  d_journal : str;
  d_year : option Z;
  d_doi : option str;
  d_pmid : option str
}.

(** An entry of the persisted dataset; [links] maps a link kind to a
    URL. *)
Record CuratedPublication := {
  c_id : str;
  c_title : str;
  c_authors : str;
  c_journal : str;
  c_year : option Z;
  c_doi : option str;
  c_pmid : option str;
  c_links : gmap str str
}.

Record Dataset := {
  approved : list CuratedPublication;
  pending : list CuratedPublication;
  rejected : list CuratedPublication;
  lastUpdated : str
}.

(** ** scripts/fetch-publications.js *)

Module Fetch.

(** [s.toLowerCase()], per code unit.  Exact on every code unit whose
    lower-case form holds an ASCII letter or digit (the Latin capitals,
    U+0130 and the Kelvin sign U+212A); the other cased letters become
    non-ASCII letters, which [normalizeTitle] removes either way. *)
Definition lowerCU (c : N) : str :=
  if is_upper c then [c + 32]
  else if c =? 0x130 then [0x69; 0x307]
  else if c =? 0x212A then [0x6B]
  else [c].

Definition toLowerCase (s : str) : str := s ≫= lowerCU.

Definition normalizeTitle (title : str) : str :=
  trim (filter (λ c, is_lower c || is_digit c) (toLowerCase title)).

(** The three tests of the loop body of [publicationExists], in order. *)
Definition matchesExisting (pub : PublicationRecord)
    (existing : CuratedPublication) : bool :=
  if truthy (doi pub) && truthy (c_doi existing)
     && bool_decide (doi pub = c_doi existing) then true
  else if truthy (pmid pub) && truthy (c_pmid existing)
     && bool_decide (pmid pub = c_pmid existing) then true
  else if str_eqb (normalizeTitle (title pub)) (normalizeTitle (c_title existing))
  then true
  else false.

Fixpoint existsLoop (pub : PublicationRecord)
    (allExisting : list CuratedPublication) : bool :=
  match allExisting with
  | [] => false
  | existing :: rest =>
      if matchesExisting pub existing then true else existsLoop pub rest
  end.

Definition publicationExists (pub : PublicationRecord)
    (existingData : Dataset) : bool :=
  let allExisting :=
    approved existingData ++ pending existingData ++ rejected existingData in
  existsLoop pub allExisting.

(** [`${v}`] for a nullable string. *)
Definition template (o : option str) : str :=
  match o with
  | Some s => s
  | None => js "null"
  end.

Definition sourceName (s : Source) : str :=
  match s with
  | orcid => js "orcid"
  | pubmed => js "pubmed"
  end.

(** [`${pub.year || 'N/A'}`] *)
Definition yearOrNA (y : option Z) : str :=
  match y with
  | Some z => if (z =? 0)%Z then js "N/A" else showNumber z
  | None => js "N/A"
  end.

(** [`${pub.doi ? `doi:${pub.doi}` : `pmid:${pub.pmid}`}`] *)
Definition commandId (pub : PublicationRecord) : str :=
  if truthy (doi pub) then js "doi:" ++ template (doi pub)
  else js "pmid:" ++ template (pmid pub).

Definition generateIssueBody (pub : PublicationRecord) : str :=
  let doiLine :=
    if truthy (doi pub) then js "**DOI:** " ++ template (doi pub) else [] in
  let pmidLine :=
    if truthy (pmid pub) then js "**PMID:** " ++ template (pmid pub) else [] in
  trim (
    nl ++
    js "## New Publication Detected" ++ nl ++
    nl ++
    js "**Title:** " ++ title pub ++ nl ++
    nl ++
    js "**Authors:** " ++ orElse (authors pub) (js "N/A") ++ nl ++
    nl ++
    js "**Journal:** " ++ orElse (Some (journal pub)) (js "N/A") ++ nl ++
    nl ++
    js "**Year:** " ++ yearOrNA (year pub) ++ nl ++
    nl ++
    doiLine ++ nl ++
    pmidLine ++ nl ++
    nl ++
    js "**Source:** " ++ sourceName (source pub) ++ nl ++
    nl ++
    js "---" ++ nl ++
    nl ++
    js "### Actions" ++ nl ++
    nl ++
    js "To approve this publication and add it to the website, comment:" ++ nl ++
    js "```" ++ nl ++
    js "/approve " ++ commandId pub ++ nl ++
    js "```" ++ nl ++
    nl ++
    js "To reject this publication (won't be asked again), comment:" ++ nl ++
    js "```" ++ nl ++
    js "/reject " ++ commandId pub ++ nl ++
    js "```" ++ nl).

(** [pub.doi || pub.pmid || normalizeTitle(pub.title)] *)
Definition dedupKey (pub : PublicationRecord) : str :=
  orElse (doi pub) (orElse (pmid pub) (normalizeTitle (title pub))).

(** One turn of the de-duplication loop of [main] on its two variables
    [seen] and [uniquePubs]. *)
Definition dedupStep (st : gset str * list PublicationRecord)
    (pub : PublicationRecord) : gset str * list PublicationRecord :=
  let key := dedupKey pub in
  if decide (key ∈ st.1) then st
  else ({[key]} ∪ st.1, st.2 ++ [pub]).

(** [main], from the two fetched lists to [uniquePubs]. *)
Definition uniquePubs (orcidPubs pubmedPubs : list PublicationRecord)
    : list PublicationRecord :=
  let allFetched := orcidPubs ++ pubmedPubs in
  (fold_left dedupStep allFetched (∅, [])).2.

(** [main], to [newPublications]: the records a review request is filed
    for. *)
Definition newPublications (existingData : Dataset)
    (orcidPubs pubmedPubs : list PublicationRecord) : list PublicationRecord :=
  filter (λ pub, publicationExists pub existingData = false)
         (uniquePubs orcidPubs pubmedPubs).

End Fetch.

(** ** The approval handler *)

Module Approve.

Inductive Action := approve | reject.

Record Command := {
  action : Action;
  idType : str;
  idValue : str
}.

(** [/\/approve\s+(doi:|pmid:)(\S+)/i] and [/\/reject\s+(doi:|pmid:)(\S+)/i] *)
Definition commandRegex (keyword : str) : regex :=
  Cat (lit keyword)
    (Cat (Plus is_ws)
      (Cat (Grp (Alt (lit (js "doi:")) (lit (js "pmid:"))))
           (Grp (Plus not_ws)))).

Definition parseCommand (comment : str) : option Command :=
  let approveMatch := jsmatch true (commandRegex (js "/approve")) comment in
  let rejectMatch := jsmatch true (commandRegex (js "/reject")) comment in
  match approveMatch with
  | Some m =>
      Some {| action := approve;
              idType := replaceFirst 58 (group 1 m);
              idValue := group 2 m |}
  | None =>
      match rejectMatch with
      | Some m =>
          Some {| action := reject;
                  idType := replaceFirst 58 (group 1 m);
                  idValue := group 2 m |}
      | None => None
      end
  end.

(** [/\*\*Label:\*\*\s*(...)/] with the capture [(.+)], [(\d+)] or [(\S+)] *)
Definition fieldRegex (label : str) (p : N → bool) : regex :=
  Cat (lit label) (Cat (Star is_ws) (Grp (Plus p))).

Definition parseIssueBody (body : str) : PubDetails :=
  let titleMatch := jsmatch false (fieldRegex (js "**Title:**") dot) body in
  let authorsMatch := jsmatch false (fieldRegex (js "**Authors:**") dot) body in
  let journalMatch := jsmatch false (fieldRegex (js "**Journal:**") dot) body in
  let yearMatch := jsmatch false (fieldRegex (js "**Year:**") is_digit) body in
  let doiMatch := jsmatch false (fieldRegex (js "**DOI:**") not_ws) body in
  let pmidMatch := jsmatch false (fieldRegex (js "**PMID:**") not_ws) body in
  {| d_title := match titleMatch with Some m => trim (group 1 m) | None => [] end;
     d_authors := match authorsMatch with Some m => trim (group 1 m) | None => [] end;
     d_journal := match journalMatch with Some m => trim (group 1 m) | None => [] end;
     d_year := match yearMatch with Some m => Some (parseInt (group 1 m)) | None => None end;
     d_doi := match doiMatch with Some m => Some (trim (group 1 m)) | None => None end;
     d_pmid := match pmidMatch with Some m => Some (trim (group 1 m)) | None => None end |}.

(** What the process reads from its surroundings: the three environment
    variables, the clock ([new Date()]) and the three characters
    [Math.random().toString(36).substring(2, 5)] yields. *)
Record Env := {
  ISSUE_COMMENT : option str;
  ISSUE_BODY : option str;
  ISSUE_NUMBER : option str;
  currentYear : Z;
  currentIso : str;
  randomSuffix : str
}.

(** [`pub-${year}-${randomSuffix}`] with [year = pub.year || currentYear] *)
Definition generateId (env : Env) (pub : PubDetails) : str :=
  let year :=
    match d_year pub with
    | Some y => if (y =? 0)%Z then currentYear env else y
    | None => currentYear env
    end in
  js "pub-" ++ showNumber year ++ js "-" ++ randomSuffix env.

(** The persisted file holds a dataset, or is missing or malformed
    ([None]); every access to it is recorded. *)
Inductive FsEvent :=
| FsRead
| FsWrite (data : Dataset).

Record World := {
  file : option Dataset;
  fsTrace : list FsEvent
}.

(** [readFileSync] and [JSON.parse]: [None] when either throws. *)
Definition loadPublications (w : World) : option Dataset * World :=
  (file w, {| file := file w; fsTrace := fsTrace w ++ [FsRead] |}).

Definition savePublications (env : Env) (data : Dataset) (w : World) : World :=
  let data' :=
    {| approved := approved data; pending := pending data;
       rejected := rejected data; lastUpdated := currentIso env |} in
  {| file := Some data'; fsTrace := fsTrace w ++ [FsWrite data'] |}.

(** Lines 111 to 126 of [main]: the entry built from the parsed body. *)
Definition buildPublication (env : Env) (pubDetails : PubDetails)
    : CuratedPublication :=
  {| c_id := generateId env pubDetails;
     c_title := d_title pubDetails;
     c_authors := d_authors pubDetails;
     c_journal := d_journal pubDetails;
     c_year := d_year pubDetails;
     c_doi := d_doi pubDetails;
     c_pmid := d_pmid pubDetails;
     c_links :=
       if truthy (d_doi pubDetails)
       then {[ js "paper" :=
                 js "https://doi.org/" ++ Fetch.template (d_doi pubDetails) ]}
       else ∅ |}.

(** Lines 128 to 136 of [main]: the push onto one of the two lists. *)
Definition applyDecision (command : Command) (publication : CuratedPublication)
    (data : Dataset) : Dataset :=
  match action command with
  | approve =>
      {| approved := approved data ++ [publication]; pending := pending data;
         rejected := rejected data; lastUpdated := lastUpdated data |}
  | reject =>
      {| approved := approved data; pending := pending data;
         rejected := rejected data ++ [publication];
         lastUpdated := lastUpdated data |}
  end.

(** How the process ends: [process.exit(code)], or [main] runs to its
    end.  An exception inside [main] reaches the [catch] of the last
    lines, which exits with status 1. *)
Inductive Outcome :=
| Exit (code : Z)
| Completed.

(** [main]: the console output is left out; the file accesses and the
    exit status are kept. *)
Definition main (env : Env) (w : World) : Outcome * World :=
  let comment := orElse (ISSUE_COMMENT env) [] in
  let issueBody := orElse (ISSUE_BODY env) [] in
  match comment with
  | [] => (Exit 1, w)
  | _ :: _ =>
      match parseCommand comment with
      | None => (Exit 0, w)
      | Some command =>
          let pubDetails := parseIssueBody issueBody in
          match loadPublications w with
          | (None, w1) => (Exit 1, w1)
          | (Some data, w1) =>
              let publication := buildPublication env pubDetails in
              let data' := applyDecision command publication data in
              (Completed, savePublications env data' w1)
          end
      end
  end.

End Approve.

(** ** scripts/fetch-publications.js: the providers, the issue tracker
    and [main] *)

(** [parseInt(s)] for any string, radix left out: leading white space
    goes, then a sign, then [0x] or [0X] selects base 16; the digits up to
    the first code unit that is none are read, and [None] stands for
    [NaN] when there is none.  The result is exact below 2^53. *)
Definition is_hex (c : N) : bool :=
  is_digit c || ((97 <=? c) && (c <=? 102)) || ((65 <=? c) && (c <=? 70)).

Definition hexValue (s : str) (a : N) : N :=
  fold_left
    (λ a c, a * 16 + (if is_digit c then c - 48
                      else if 97 <=? c then c - 87 else c - 55)) s a.

Definition parseIntAny (s : str) : option Z :=
  let s1 := trimStart s in
  let negative := match s1 with c :: _ => c =? 45 | [] => false end in
  let s2 :=
    match s1 with
    | c :: r => if (c =? 45) || (c =? 43) then r else s1
    | [] => s1
    end in
  let hex :=
    match s2 with
    | c :: x :: _ => (c =? 48) && ((x =? 120) || (x =? 88))
    | _ => false
    end in
  let digits := if hex then run is_hex (drop 2 s2) else run is_digit s2 in
  match digits with
  | [] => None
  | _ :: _ =>
      let n := Z.of_N (if hex then hexValue digits 0 else digitsValue digits 0) in
      Some (if negative then (- n)%Z else n)
  end.

(** [l.join(sep)] *)
Fixpoint join (sep : str) (l : list str) : str :=
  match l with
  | [] => []
  | [x] => x
  | x :: r => x ++ sep ++ join sep r
  end.

Module FetchScript.

(** How a request ends: something throws where the answer is awaited or
    read ([fetch] or [response.json()] rejects, or the answer is not of
    the shape described below), the status is not a success, or the
    parsed answer is there. *)
Inductive Http (A : Type) : Type :=
| Failed
| NotOk (status : N)
| Ok (data : A).
Arguments Failed {A}.
Arguments NotOk {A} status.
Arguments Ok {A} data.

(** The ORCID answer, as far as the script reads it: [data.group], in
    each group the array [work-summary], in a summary
    [title?.title?.value], [publication-date?.year?.value],
    [journal-title?.value] and the array [external-ids?.external-id]
    (empty when a link of the chain is missing). *)
Record ExternalId := {
  ext_type : str;
  ext_value : str
}.

Record WorkSummary := {
  ws_title : option str;
  ws_year : option str;
  ws_journal : option str;
  ws_external_ids : list ExternalId
}.

Definition OrcidData := option (list (list WorkSummary)).

(** The PubMed answers: [esearchresult?.idlist] of the search, and of the
    summary the member [result]: absent, or an object, given by its own
    properties, from an id to an article with [title], [authors] (their
    names), [source], [pubdate] and [articleids], or to [None] for a
    value that is falsy ([null], [0], the empty string). *)
Record ArticleId := {
  idtype : str;
  idvalue : str
}.

Record Article := {
  a_title : option str;
  a_authors : option (list str);
  a_source : option str;
  a_pubdate : option str;
  a_articleids : option (list ArticleId)
}.

Definition SearchData := option (list str).
Definition SummaryData := option (gmap str (option Article)).

Record Issue := {
  number : N;
  html_url : str
}.

(** The requests the script sends, without their fixed parts (hosts,
    headers, the author searched for). *)
Inductive Request :=
| OrcidWorks
| PubmedSearch (apiKey : str)
| PubmedSummary (ids : list str) (apiKey : str)
| CreateIssue (repo token issueTitle issueBody : str) (labels : list str).

(** What the services answer. *)
Record Network := {
  orcidAnswer : Http OrcidData;
  searchAnswer : Http SearchData;
  summaryAnswer : list str → Http SummaryData;
  issueAnswer : str → str → Http Issue
}.

Record Env := {
  GITHUB_TOKEN : option str;
  GITHUB_REPOSITORY : option str;
  NCBI_API_KEY : option str;
  NOTIFY_EMAIL : option str;
  EMAIL_USERNAME : option str;
  EMAIL_PASSWORD : option str
}.

(** [year ? parseInt(year) : null]; a [NaN] is kept as an absent year:
    the one reader of the field, [pub.year || 'N/A'], takes both alike. *)
Definition yearOf (y : option str) : option Z :=
  if truthy y then parseIntAny (default [] y) else None.

(** The loop over the external ids of a work summary, on its variables
    [doi] and [pmid]. *)
Definition externalIdStep (st : option str * option str) (extId : ExternalId)
    : option str * option str :=
  let doi := if str_eqb (ext_type extId) (js "doi")
             then Some (ext_value extId) else st.1 in
  let pmid := if str_eqb (ext_type extId) (js "pmid")
              then Some (ext_value extId) else st.2 in
  (doi, pmid).

Definition orcidRecord (workSummary : WorkSummary) : PublicationRecord :=
  let ids := fold_left externalIdStep (ws_external_ids workSummary) (None, None) in
  {| title := orElse (ws_title workSummary) [];
     authors := None;
     journal := orElse (ws_journal workSummary) [];
     year := yearOf (ws_year workSummary);
     doi := ids.1;
     pmid := ids.2;
     source := orcid |}.

(** The loop over [data.group]. *)
Fixpoint orcidRecords (groups : list (list WorkSummary))
    : list PublicationRecord :=
  match groups with
  | [] => []
  | group :: rest =>
      match head group with
      | Some workSummary => orcidRecord workSummary :: orcidRecords rest
      | None => orcidRecords rest
      end
  end.

Definition fetchOrcidPublications (net : Network)
    : list PublicationRecord * list Request :=
  match orcidAnswer net with
  | Ok data => (orcidRecords (default [] data), [OrcidWorks])
  | _ => ([], [OrcidWorks])
  end.

(** The loop over [article.articleids]: the first doi ends it. *)
Fixpoint firstDoi (articleIds : list ArticleId) : option str :=
  match articleIds with
  | [] => None
  | id :: rest =>
      if str_eqb (idtype id) (js "doi") then Some (idvalue id)
      else firstDoi rest
  end.

Definition pubmedRecord (pmid : str) (article : Article) : PublicationRecord :=
  {| title := orElse (a_title article) [];
     authors :=
       Some (match a_authors article with
             | Some names => join (js ", ") names
             | None => []
             end);
     journal := orElse (a_source article) [];
     year := if truthy (a_pubdate article)
             then parseIntAny (take 4 (default [] (a_pubdate article)))
             else None;
     doi := firstDoi (default [] (a_articleids article));
     pmid := Some pmid;
     source := pubmed |}.

(** The names an object of a parsed answer inherits from
    [Object.prototype].  Read from an object that has no own property of
    that name, each gives a function (the prototype itself for
    [__proto__]): a truthy value with none of the members an article is
    read by. *)
Definition inheritedNames : list str :=
  [js "constructor"; js "__defineGetter__"; js "__defineSetter__";
   js "hasOwnProperty"; js "__lookupGetter__"; js "__lookupSetter__";
   js "isPrototypeOf"; js "propertyIsEnumerable"; js "toString";
   js "valueOf"; js "__proto__"; js "toLocaleString"].

Definition inheritedValue : Article :=
  {| a_title := None; a_authors := None; a_source := None;
     a_pubdate := None; a_articleids := None |}.

(** [fetchData.result?.[pmid]], [None] when it is falsy: an own property
    of [result] comes first, then the inherited ones. *)
Definition articleAt (fetchData : SummaryData) (pmid : str) : option Article :=
  match fetchData with
  | None => None
  | Some result =>
      match result !! pmid with
      | Some own => own
      | None =>
          if bool_decide (pmid ∈ inheritedNames) then Some inheritedValue
          else None
      end
  end.

(** The loop over [pmids]. *)
Fixpoint pubmedRecords (fetchData : SummaryData) (pmids : list str)
    : list PublicationRecord :=
  match pmids with
  | [] => []
  | pmid :: rest =>
      match articleAt fetchData pmid with
      | Some article => pubmedRecord pmid article :: pubmedRecords fetchData rest
      | None => pubmedRecords fetchData rest
      end
  end.

Definition fetchPubmedPublications (env : Env) (net : Network)
    : list PublicationRecord * list Request :=
  let apiKey := orElse (NCBI_API_KEY env) [] in
  match searchAnswer net with
  | Ok searchData =>
      match default [] searchData with
      | [] => ([], [PubmedSearch apiKey])
      | pmid :: rest =>
          let pmids := pmid :: rest in
          match summaryAnswer net pmids with
          | Ok fetchData =>
              (pubmedRecords fetchData pmids,
               [PubmedSearch apiKey; PubmedSummary pmids apiKey])
          | _ => ([], [PubmedSearch apiKey; PubmedSummary pmids apiKey])
          end
      end
  | _ => ([], [PubmedSearch apiKey])
  end.

(** [`[New Publication] ${pub.title.substring(0, 80)}...`] *)
Definition issueTitle (pub : PublicationRecord) : str :=
  js "[New Publication] " ++ take 80 (title pub) ++ js "...".

(** [createGitHubIssue]: the issue, [null] when the tracker is not
    configured ([Some None]), or an exception ([None]); and the request
    sent, if any. *)
Definition createGitHubIssue (env : Env) (net : Network)
    (pub : PublicationRecord) : option (option Issue) * list Request :=
  if negb (truthy (GITHUB_TOKEN env)) || negb (truthy (GITHUB_REPOSITORY env))
  then (Some None, [])
  else
    let request :=
      CreateIssue (default [] (GITHUB_REPOSITORY env))
        (default [] (GITHUB_TOKEN env))
        (issueTitle pub) (Fetch.generateIssueBody pub)
        [js "publication"; js "pending-review"] in
    match issueAnswer net (issueTitle pub) (Fetch.generateIssueBody pub) with
    | Ok issue => (Some (Some issue), [request])
    | _ => (None, [request])
    end.

(** The loop of [main] over the new publications: an exception of
    [createGitHubIssue] is caught and the loop goes on. *)
Fixpoint createIssues (env : Env) (net : Network)
    (newPublications : list PublicationRecord) : list Request :=
  match newPublications with
  | [] => []
  | pub :: rest =>
      (createGitHubIssue env net pub).2 ++ createIssues env net rest
  end.

(** What a run shows: how it ends, the requests in the order they are
    sent, and the [new_count] output of the last line, when printed. *)
Record Run := {
  outcome : Approve.Outcome;
  requests : list Request;
  new_count : option nat
}.

(** [main]; [file] is the dataset file: [None] when it is missing or is
    no JSON text, and else a dataset as the data model has it, three lists
    of entries with a string title.  A file that parses to another value
    is outside this model: on such a file the comparison with the stored
    entries can throw after the providers were asked, and the run then
    ends with status 1.  The console messages and
    [sendEmailNotification], which only prints, are left out. *)
Definition main (env : Env) (net : Network) (file : option Dataset) : Run :=
  match file with
  | None => {| outcome := Approve.Exit 1; requests := []; new_count := None |}
  | Some existingData =>
      let '(orcidPubs, orcidRequests) := fetchOrcidPublications net in
      let '(pubmedPubs, pubmedRequests) := fetchPubmedPublications env net in
      let newPublications :=
        Fetch.newPublications existingData orcidPubs pubmedPubs in
      match newPublications with
      | [] =>
          {| outcome := Approve.Completed;
             requests := orcidRequests ++ pubmedRequests;
             new_count := None |}
      | _ :: _ =>
          {| outcome := Approve.Completed;
             requests := orcidRequests ++ pubmedRequests
                         ++ createIssues env net newPublications;
             new_count := Some (length newPublications) |}
      end
  end.

End FetchScript.

(** ** Reference notions the properties are stated with *)

(** [s] starts with [needle], and [needle] occurs in [s], letter case
    ignored. *)
Fixpoint prefixCI (needle s : str) : bool :=
  match needle, s with
  | [], _ => true
  | c :: needle', x :: s' => (canon c =? canon x) && prefixCI needle' s'
  | _ :: _, [] => false
  end.

Fixpoint occursCI (needle s : str) : bool :=
  prefixCI needle s ||
  match s with
  | [] => false
  | _ :: s' => occursCI needle s'
  end.

(** No two asterisks in a row. *)
Fixpoint no2star (s : str) : bool :=
  match s with
  | [] => true
  | x :: s' =>
      negb ((x =? 42) && match s' with y :: _ => y =? 42 | [] => false end)
      && no2star s'
  end.

(** The curated form of a fetched record, for comparing two fetched
    records with the test [publicationExists] applies. *)
Definition asCurated (pub : PublicationRecord) : CuratedPublication :=
  {| c_id := []; c_title := title pub; c_authors := default [] (authors pub);
     c_journal := journal pub; c_year := year pub; c_doi := doi pub;
     c_pmid := pmid pub; c_links := ∅ |}.

(** The record a render and parse round trip is expected to give back:
    the six fields of the input, an absent [authors] as the empty string
    and an empty [doi] or [pmid] as an absent one. *)
Definition expectedDetails (pub : PublicationRecord) : PubDetails :=
  {| d_title := title pub;
     d_authors := default [] (authors pub);
     d_journal := journal pub;
     d_year := year pub;
     d_doi := if truthy (doi pub) then doi pub else None;
     d_pmid := if truthy (pmid pub) then pmid pub else None |}.

(** A text field that renders on one line and is read back whole: not
    empty, no line terminator, no white space at either end, no two
    asterisks in a row. *)
Definition lineText (s : str) : Prop :=
  s ≠ [] ∧ Forall (λ c, dot c = true) s
  ∧ (∀ c, head s = Some c → is_ws c = false)
  ∧ (∀ c, last s = Some c → is_ws c = false)
  ∧ no2star s = true.

(** An identifier that is read back whole: not empty, no white space, no
    two asterisks in a row. *)
Definition idText (s : str) : Prop :=
  s ≠ [] ∧ Forall (λ c, not_ws c = true) s ∧ no2star s = true.

(** A text field of a record that may be left out: absent, empty, or a
    [lineText]. *)
Definition optLine (o : option str) : Prop :=
  match o with
  | Some (c :: s) => lineText (c :: s)
  | _ => True
  end.

(** The decision of the spec's words for [parseCommand]: the leftmost
    place of the comment where one of the two command patterns matches
    decides. *)
Fixpoint specParseCommand (comment : str) : option Approve.Command :=
  match match_at true (Approve.commandRegex (js "/approve")) comment with
  | Some m =>
      Some {| Approve.action := Approve.approve;
              Approve.idType := replaceFirst 58 (group 1 m);
              Approve.idValue := group 2 m |}
  | None =>
      match match_at true (Approve.commandRegex (js "/reject")) comment with
      | Some m =>
          Some {| Approve.action := Approve.reject;
                  Approve.idType := replaceFirst 58 (group 1 m);
                  Approve.idValue := group 2 m |}
      | None =>
          match comment with
          | [] => None
          | _ :: comment' => specParseCommand comment'
          end
      end
  end.

(** [s] starts with a command: the keyword in any letter case, white
    space, [idt] (["doi:"] or ["pmid:"] in any letter case) and the token
    [tok], the longest run of non-white-space code units there. *)
Definition CommandAt (keyword s idt tok : str) : Prop :=
  ∃ kw ws rest,
    s = kw ++ ws ++ idt ++ tok ++ rest
    ∧ canon <$> kw = canon <$> keyword
    ∧ ws ≠ [] ∧ Forall (λ c, is_ws c = true) ws
    ∧ (canon <$> idt = canon <$> js "doi:" ∨ canon <$> idt = canon <$> js "pmid:")
    ∧ tok ≠ [] ∧ Forall (λ c, not_ws c = true) tok
    ∧ (∀ c, head rest = Some c → is_ws c = true).

(** The first command with that keyword in [comment]. *)
Definition FirstCommand (keyword comment idt tok : str) : Prop :=
  ∃ pre s,
    comment = pre ++ s ∧ CommandAt keyword s idt tok
    ∧ ∀ pre' s' idt' tok',
        comment = pre' ++ s' → (length pre' < length pre)%nat →
        ¬ CommandAt keyword s' idt' tok'.

Definition NoCommand (keyword comment : str) : Prop :=
  ∀ pre s idt tok, comment = pre ++ s → ¬ CommandAt keyword s idt tok.

(** What is left of [s] after the literal [l], when [s] starts with it. *)
Fixpoint stripLit (ci : bool) (l s : str) : option str :=
  match l with
  | [] => Some s
  | c :: l' =>
      match s with
      | x :: s' => if chr_eq ci c x then stripLit ci l' s' else None
      | [] => None
      end
  end.

(** The same surroundings with another inbound comment. *)
Definition withComment (env : Approve.Env) (comment : str) : Approve.Env :=
  {| Approve.ISSUE_COMMENT := Some comment;
     Approve.ISSUE_BODY := Approve.ISSUE_BODY env;
     Approve.ISSUE_NUMBER := Approve.ISSUE_NUMBER env;
     Approve.currentYear := Approve.currentYear env;
     Approve.currentIso := Approve.currentIso env;
     Approve.randomSuffix := Approve.randomSuffix env |}.

(** The request bodies of scenario B: the two labelled fields alone, and
    the body rendered for a record with that title and doi. *)
Definition scenarioB_fields : str :=
  js "**Title:** Foo" ++ nl ++ js "**DOI:** 10.5/y".

Definition scenarioB_rendered : str :=
  Fetch.generateIssueBody
    {| title := js "Foo"; authors := None; journal := []; year := None;
       doi := Some (js "10.5/y"); pmid := None; source := orcid |}.

(** The text of the template of [generateIssueBody] between its first
    and its last line break. *)
Definition renderedText (pub : PublicationRecord) (doiLine pmidLine : str)
    : str :=
  js "## New Publication Detected" ++ nl ++
  nl ++
  js "**Title:** " ++ title pub ++ nl ++
  nl ++
  js "**Authors:** " ++ orElse (authors pub) (js "N/A") ++ nl ++
  nl ++
  js "**Journal:** " ++ orElse (Some (journal pub)) (js "N/A") ++ nl ++
  nl ++
  js "**Year:** " ++ Fetch.yearOrNA (year pub) ++ nl ++
  nl ++
  doiLine ++ nl ++
  pmidLine ++ nl ++
  nl ++
  js "**Source:** " ++ Fetch.sourceName (source pub) ++ nl ++
  nl ++
  js "---" ++ nl ++
  nl ++
  js "### Actions" ++ nl ++
  nl ++
  js "To approve this publication and add it to the website, comment:" ++ nl ++
  js "```" ++ nl ++
  js "/approve " ++ Fetch.commandId pub ++ nl ++
  js "```" ++ nl ++
  nl ++
  js "To reject this publication (won't be asked again), comment:" ++ nl ++
  js "```" ++ nl ++
  js "/reject " ++ Fetch.commandId pub ++ nl ++
  js "```".

(** The two command templates at the end of a request body, for the
    identifier reference [id] (["doi:..."] or ["pmid:..."]). *)
Definition commandTemplates (id : str) : str :=
  js "/approve " ++ id ++ nl ++
  js "```" ++ nl ++
  nl ++
  js "To reject this publication (won't be asked again), comment:" ++ nl ++
  js "```" ++ nl ++
  js "/reject " ++ id ++ nl ++
  js "```".

(** The identifier and token part of a command pattern, run on its own:
    [(doi:|pmid:)(\S+)] under the [i] flag, at the start of [s]. *)
Definition idToken (s : str) (caps : list str) : option (list str) :=
  rmatch true
    (Cat (Grp (Alt (lit (js "doi:")) (lit (js "pmid:")))) (Grp (Plus not_ws)))
    s caps (λ _ c, Some c).

(** An identifier field of a record: absent, empty, or an [idText]. *)
Definition optId (o : option str) : Prop :=
  match o with
  | Some (c :: d) => idText (c :: d)
  | _ => True
  end.

(** The literal [l] differs from [t] at a position both have; and it does
    so at every suffix of [t]: no match of a pattern that begins with [l]
    can start inside [t], whatever follows. *)
Fixpoint misses (l t : str) : bool :=
  match l, t with
  | c :: l', x :: t' => if c =? x then misses l' t' else true
  | _, _ => false
  end.

Fixpoint missesAll (l t : str) : bool :=
  match t with
  | [] => true
  | _ :: t' => misses l t && missesAll l t'
  end.

(** ** Further notions for the properties of the two scripts *)

(** What [normalizeTitle] keeps: [a-z0-9]. *)
Definition alnum (c : N) : bool := is_lower c || is_digit c.

(** A text with no line terminator and something other than white
    space. *)
Definition oneLine (s : str) : Prop :=
  Forall (λ c, dot c = true) s ∧ Exists (λ c, is_ws c = false) s.

(** The request [createGitHubIssue] sends for a record, whether the
    tracker is configured, and the requests that create an issue. *)
Definition issueRequest (env : FetchScript.Env) (pub : PublicationRecord)
    : FetchScript.Request :=
  FetchScript.CreateIssue (default [] (FetchScript.GITHUB_REPOSITORY env))
    (default [] (FetchScript.GITHUB_TOKEN env))
    (FetchScript.issueTitle pub) (Fetch.generateIssueBody pub)
    [js "publication"; js "pending-review"].

Definition configured (env : FetchScript.Env) : bool :=
  truthy (FetchScript.GITHUB_TOKEN env) && truthy (FetchScript.GITHUB_REPOSITORY env).

Definition isCreateIssue (r : FetchScript.Request) : bool :=
  match r with FetchScript.CreateIssue _ _ _ _ _ => true | _ => false end.

(** Sample surroundings, records and answers for the instances below. *)
Definition sampleEnv (comment body : str) : Approve.Env :=
  {| Approve.ISSUE_COMMENT := Some comment;
     Approve.ISSUE_BODY := Some body;
     Approve.ISSUE_NUMBER := Some (js "7");
     Approve.currentYear := 2025%Z;
     Approve.currentIso := js "2025-01-01T00:00:00.000Z";
     Approve.randomSuffix := js "abc" |}.

Definition sampleRecord (t : str) (d : option str) (s : Source)
    : PublicationRecord :=
  {| title := t; authors := None; journal := js "Nature";
     year := Some 2020%Z; doi := d; pmid := None; source := s |}.

Definition emptyDataset : Dataset :=
  {| approved := []; pending := []; rejected := [];
     lastUpdated := js "2024-01-01T00:00:00.000Z" |}.

Definition sampleNet : FetchScript.Network :=
  {| FetchScript.orcidAnswer :=
       FetchScript.Ok (Some [[
         {| FetchScript.ws_title := Some (js "Foo");
            FetchScript.ws_year := Some (js "2020");
            FetchScript.ws_journal := None;
            FetchScript.ws_external_ids :=
              [{| FetchScript.ext_type := js "doi";
                  FetchScript.ext_value := js "10.1/x" |}] |}]]);
     FetchScript.searchAnswer := FetchScript.Ok (Some [js "123"]);
     FetchScript.summaryAnswer := λ _, FetchScript.NotOk 500;
     FetchScript.issueAnswer := λ _ _, FetchScript.Failed |}.

Definition sampleFetchEnv : FetchScript.Env :=
  {| FetchScript.GITHUB_TOKEN := Some (js "t0ken");
     FetchScript.GITHUB_REPOSITORY := Some (js "lab/site");
     FetchScript.NCBI_API_KEY := None;
     FetchScript.NOTIFY_EMAIL := None;
     FetchScript.EMAIL_USERNAME := None;
     FetchScript.EMAIL_PASSWORD := None |}.


(** * Properties *)

(** ** De-duplication within a fetch cycle *)

Section Dedup.
Import Fetch.

Implicit Types (seen : gset str) (acc l : list PublicationRecord).

Lemma dedup_fold_seen l : ∀ seen acc,
  (fold_left dedupStep l (seen, acc)).1 = list_to_set (dedupKey <$> l) ∪ seen.
Proof.
  induction l as [|p l IH]; intros seen acc; simpl.
  - set_solver.
  - unfold dedupStep at 2; simpl. case_decide; rewrite IH; set_solver.
Qed.

Lemma dedup_fold_acc l : ∀ seen acc,
  (fold_left dedupStep l (seen, acc)).2
  = acc ++ (fold_left dedupStep l (seen, [])).2.
Proof.
  induction l as [|p l IH]; intros seen acc; simpl.
  - by rewrite app_nil_r.
  - unfold dedupStep at 2 4; simpl. case_decide.
    + apply IH.
    + rewrite (IH _ (acc ++ [p])), (IH _ [p]). by rewrite <- app_assoc.
Qed.

(** A survivor comes from the list, and its key had not been seen. *)
Lemma dedup_fold_fresh l : ∀ seen r,
  r ∈ (fold_left dedupStep l (seen, [])).2 → r ∈ l ∧ dedupKey r ∉ seen.
Proof.
  induction l as [|p l IH]; intros seen r; simpl.
  - intros H. by apply elem_of_nil in H.
  - unfold dedupStep at 2; simpl. case_decide as Hk.
    + intros [? ?]%IH. split; [by right | done].
    + rewrite dedup_fold_acc. intros [Hr | Hr]%elem_of_app.
      * apply list_elem_of_singleton in Hr as ->. split; [by left | done].
      * apply IH in Hr as [? ?]. split; [by right | set_solver].
Qed.

(** The first record with a key not seen yet survives; nothing else with
    that key does. *)
Lemma dedup_fold_first l1 l2 a seen :
  dedupKey a ∉ seen →
  (∀ r, r ∈ l1 → dedupKey r ≠ dedupKey a) →
  ∃ u1 u2,
    (fold_left dedupStep (l1 ++ a :: l2) (seen, [])).2 = u1 ++ a :: u2
    ∧ ∀ r, r ∈ (u1 ++ u2) → dedupKey r ≠ dedupKey a.
Proof.
  intros Hseen Hl1.
  rewrite fold_left_app. simpl.
  destruct (fold_left dedupStep l1 (seen, [])) as [seen1 u1] eqn:E1.
  assert (Hs1 : seen1 = list_to_set (dedupKey <$> l1) ∪ seen).
  { change seen1 with (seen1, u1).1. rewrite <- E1. apply dedup_fold_seen. }
  assert (Hu1 : ∀ r, r ∈ u1 → r ∈ l1).
  { intros r Hr. change u1 with (seen1, u1).2 in Hr. rewrite <- E1 in Hr.
    by apply dedup_fold_fresh in Hr as [? _]. }
  assert (Hnew : dedupKey a ∉ seen1).
  { rewrite Hs1. intros [Hin | Hin]%elem_of_union; [|done].
    apply elem_of_list_to_set, list_elem_of_fmap in Hin as (r & Hk & Hr).
    by apply (Hl1 r Hr). }
  unfold dedupStep at 2; simpl. rewrite decide_False by done.
  rewrite dedup_fold_acc.
  exists u1, (fold_left dedupStep l2 ({[dedupKey a]} ∪ seen1, [])).2.
  split; [by rewrite <- app_assoc |].
  intros r [Hr | Hr]%elem_of_app.
  - by apply Hl1, Hu1.
  - apply dedup_fold_fresh in Hr as [_ Hr]. set_solver.
Qed.

Lemma dedupKey_doi pub c d : doi pub = Some (c :: d) → dedupKey pub = c :: d.
Proof. unfold dedupKey. by intros ->. Qed.

End Dedup.

(** C5.  Two fetched records with the same non-empty doi, one from ORCID
    and one from PubMed: fetched alone, only the ORCID record is left by
    the de-duplication pass; fetched among other records, where the ORCID
    record is the first in fetch order to carry that key, it survives and
    no other record with the key does, the PubMed record included. *)
Theorem dedup_same_doi_keeps_first (a b : PublicationRecord) (d : str) :
  source a = orcid → source b = pubmed →
  doi a = Some d → doi b = Some d → d ≠ [] →
  Fetch.uniquePubs [a] [b] = [a]
  ∧ ∀ o1 o2 p1 p2,
      (∀ r, r ∈ o1 → Fetch.dedupKey r ≠ d) →
      ∃ u1 u2,
        Fetch.uniquePubs (o1 ++ a :: o2) (p1 ++ b :: p2) = u1 ++ a :: u2
        ∧ (b ∉ u1 ++ u2)
        ∧ ∀ r, r ∈ (u1 ++ u2) → Fetch.dedupKey r ≠ d.
Proof.
  intros _ _ Ha Hb Hd.
  destruct d as [|c d]; [done | clear Hd].
  pose proof (dedupKey_doi _ _ _ Ha) as Hka.
  pose proof (dedupKey_doi _ _ _ Hb) as Hkb.
  split.
  - unfold Fetch.uniquePubs; simpl. unfold Fetch.dedupStep at 2; simpl.
    rewrite decide_False by set_solver.
    unfold Fetch.dedupStep; simpl. rewrite Hka, Hkb.
    rewrite decide_True by set_solver. done.
  - intros o1 o2 p1 p2 Ho1. unfold Fetch.uniquePubs.
    rewrite <- app_assoc. simpl.
    destruct (dedup_fold_first o1 (o2 ++ p1 ++ b :: p2) a ∅) as (u1 & u2 & E & Hu).
    + set_solver.
    + by rewrite Hka.
    + exists u1, u2. rewrite Hka in Hu. split; [done | split; [|done]].
      intros Hin. by apply (Hu b Hin).
Qed.

Lemma dedup_same_doi_keeps_first_witness :
  let a := {| title := js "Foo"; authors := None; journal := js "J";
              year := Some 2020%Z; doi := Some (js "10.1/x"); pmid := None;
              source := orcid |} in
  let b := {| title := js "Foo."; authors := Some (js "Rubin BE");
              journal := js "J"; year := Some 2020%Z;
              doi := Some (js "10.1/x"); pmid := Some (js "123");
              source := pubmed |} in
  Fetch.uniquePubs [a] [b] = [a].
Proof.
  intros a b.
  apply (dedup_same_doi_keeps_first a b (js "10.1/x"));
    [reflexivity | reflexivity | reflexivity | reflexivity | discriminate].
Defined.

(** C10.  Two records with the same non-empty pmid, the earlier with a
    doi and the later without one, both survive the de-duplication pass
    (their keys are the doi and the pmid), although the test of
    [publicationExists] takes them for the same publication. *)
Theorem dedup_misses_pmid_match (a b : PublicationRecord) (d p : str) :
  pmid a = Some p → pmid b = Some p → p ≠ [] →
  doi a = Some d → d ≠ [] → truthy (doi b) = false →
  d ≠ p →
  Fetch.matchesExisting b (asCurated a) = true
  ∧ Fetch.matchesExisting a (asCurated b) = true
  ∧ Fetch.dedupKey a = d ∧ Fetch.dedupKey b = p
  ∧ Fetch.uniquePubs [a; b] [] = [a; b]
  ∧ Fetch.uniquePubs [a] [b] = [a; b].
Proof.
  intros Hpa Hpb Hp Hda Hd Hdb Hne.
  destruct p as [|cp p]; [done|]. destruct d as [|cd d]; [done|].
  assert (Hka : Fetch.dedupKey a = cd :: d) by by apply dedupKey_doi.
  assert (Hkb : Fetch.dedupKey b = cp :: p).
  { unfold Fetch.dedupKey. rewrite Hpb.
    destruct (doi b) as [[|? ?]|]; simpl in *; done. }
  assert (Hm : ∀ x y, pmid x = Some (cp :: p) → pmid y = Some (cp :: p) →
               truthy (doi x) && truthy (doi y) = false →
               Fetch.matchesExisting x (asCurated y) = true).
  { intros x y Hx Hy Hxy. unfold Fetch.matchesExisting; simpl.
    rewrite Hxy, Hx, Hy; simpl. by rewrite bool_decide_eq_true_2. }
  repeat split.
  - apply Hm; [done | done | by rewrite Hdb].
  - apply Hm; [done | done | by rewrite Hdb, andb_false_r].
  - done.
  - done.
  - unfold Fetch.uniquePubs; simpl. unfold Fetch.dedupStep at 2; simpl.
    rewrite decide_False by set_solver.
    unfold Fetch.dedupStep; simpl. rewrite Hka, Hkb.
    rewrite decide_False by set_solver. done.
  - unfold Fetch.uniquePubs; simpl. unfold Fetch.dedupStep at 2; simpl.
    rewrite decide_False by set_solver.
    unfold Fetch.dedupStep; simpl. rewrite Hka, Hkb.
    rewrite decide_False by set_solver. done.
Qed.

Lemma dedup_misses_pmid_match_witness :
  let a := {| title := js "Foo"; authors := None; journal := js "J";
              year := Some 2020%Z; doi := Some (js "10.1/x");
              pmid := Some (js "123"); source := orcid |} in
  let b := {| title := js "Foo"; authors := Some (js "Rubin BE");
              journal := js "J"; year := Some 2020%Z; doi := None;
              pmid := Some (js "123"); source := pubmed |} in
  Fetch.matchesExisting b (asCurated a) = true
  ∧ Fetch.uniquePubs [a] [b] = [a; b].
Proof.
  intros a b.
  destruct (dedup_misses_pmid_match a b (js "10.1/x") (js "123"))
    as (H1 & _ & _ & _ & _ & H2);
    [reflexivity | reflexivity | discriminate | reflexivity | discriminate
    | reflexivity | discriminate | ].
  split; [exact H1 | exact H2].
Defined.

(** ** Reconciliation against the dataset *)

Section Reconciliation.
Import Fetch.

Lemma existsLoop_elem pub (l : list CuratedPublication) e :
  e ∈ l → matchesExisting pub e = true → existsLoop pub l = true.
Proof.
  induction l as [|x l IH]; intros Hin Hm.
  - by apply elem_of_nil in Hin.
  - simpl. apply elem_of_cons in Hin as [<- | Hin].
    + by rewrite Hm.
    + destruct (matchesExisting pub x); [done | by apply IH].
Qed.

Lemma matchesExisting_doi pub e d :
  doi pub = Some d → c_doi e = Some d → d ≠ [] → matchesExisting pub e = true.
Proof.
  intros Hp He Hd. unfold matchesExisting. rewrite Hp, He.
  destruct d; [done|]. simpl. by rewrite bool_decide_eq_true_2.
Qed.

End Reconciliation.

(** C2.  A fetched record whose non-empty doi is the doi of an entry of
    the [rejected] list exists for [publicationExists], whatever the
    [approved] and [pending] lists hold, and is not among the new
    publications. *)
Theorem rejected_doi_never_proposed (existingData : Dataset)
    (orcidPubs pubmedPubs : list PublicationRecord)
    (pub : PublicationRecord) (entry : CuratedPublication) (d : str) :
  entry ∈ rejected existingData →
  doi pub = Some d → c_doi entry = Some d → d ≠ [] →
  Fetch.publicationExists pub existingData = true
  ∧ pub ∉ Fetch.newPublications existingData orcidPubs pubmedPubs.
Proof.
  intros Hin Hp He Hd.
  assert (Hex : Fetch.publicationExists pub existingData = true).
  { unfold Fetch.publicationExists.
    apply (existsLoop_elem pub _ entry).
    - rewrite !elem_of_app. by right; right.
    - by apply (matchesExisting_doi pub entry d). }
  split; [done |].
  unfold Fetch.newPublications. rewrite list_elem_of_filter.
  intros [Hf _]. congruence.
Qed.

Lemma rejected_doi_never_proposed_witness :
  let entry := {| c_id := js "pub-2020-abc"; c_title := js "Old title";
                  c_authors := []; c_journal := []; c_year := None;
                  c_doi := Some (js "10.1/x"); c_pmid := None;
                  c_links := ∅ |} in
  let data := {| approved := []; pending := []; rejected := [entry];
                 lastUpdated := [] |} in
  let pub := {| title := js "A new title"; authors := None; journal := [];
                year := None; doi := Some (js "10.1/x"); pmid := None;
                source := orcid |} in
  Fetch.newPublications data [pub] [] = [].
Proof.
  intros entry data pub.
  destruct (rejected_doi_never_proposed data [pub] [] pub entry (js "10.1/x"))
    as [Hex _];
    [ by apply list_elem_of_singleton | reflexivity | reflexivity
    | discriminate | ].
  unfold Fetch.newPublications.
  change (Fetch.uniquePubs [pub] []) with [pub].
  rewrite filter_cons_False; [reflexivity | congruence].
Defined.

(** ** The regex matcher *)

Section Matcher.

Implicit Types (s l : str) (p : N → bool) (caps : list str).

Lemma run_afterRun p s : s = run p s ++ afterRun p s.
Proof. induction s as [|c s IH]; simpl; [done|]. destruct (p c); simpl; congruence. Qed.

Lemma run_Forall p s : Forall (λ c, p c = true) (run p s).
Proof.
  induction s as [|c s IH]; simpl; [constructor|].
  destruct (p c) eqn:E; by constructor.
Qed.

Lemma afterRun_head p s c : head (afterRun p s) = Some c → p c = false.
Proof.
  induction s as [|x s IH]; simpl; [done|].
  destruct (p x) eqn:E; simpl; [done | congruence].
Qed.

Lemma run_app p v s :
  Forall (λ c, p c = true) v → (∀ c, head s = Some c → p c = false) →
  run p (v ++ s) = v ∧ afterRun p (v ++ s) = s.
Proof.
  intros Hv Hs. induction Hv as [|c v Hc Hv IH]; simpl.
  - destruct s as [|c s]; simpl; [done|]. by rewrite (Hs c eq_refl).
  - rewrite Hc. destruct IH as [-> ->]. done.
Qed.

(** Greedy repetition commits to the whole run when the continuation
    accepts what follows it. *)
Lemma star_greedy {A} p s (k : str → option A) x :
  k (afterRun p s) = Some x → star p s k = Some x.
Proof.
  induction s as [|c s IH]; simpl; [done|].
  destruct (p c); [|done]. intros H. by rewrite (IH H).
Qed.

(** When the continuation refuses every string that starts in the class,
    giving code units back is of no use. *)
Lemma star_no_backtrack {A} p s (k : str → option A) :
  (∀ c t, p c = true → k (c :: t) = None) → star p s k = k (afterRun p s).
Proof.
  intros Hk. induction s as [|c s IH]; simpl; [done|].
  destruct (p c) eqn:E; [|done]. rewrite IH.
  destruct (k (afterRun p s)); [done | by apply Hk].
Qed.

Lemma rmatch_lit ci l s caps k :
  rmatch ci (lit l) s caps k
  = match stripLit ci l s with Some s' => k s' caps | None => None end.
Proof.
  revert s. induction l as [|c l IH]; intros s; simpl; [done|].
  destruct s as [|x s]; [done|]. destruct (chr_eq ci c x); [apply IH | done].
Qed.

Lemma stripLit_app l s : stripLit false l (l ++ s) = Some s.
Proof.
  induction l as [|c l IH]; simpl; [done|].
  unfold chr_eq. by rewrite N.eqb_refl.
Qed.

Lemma stripLit_ci_Some l s s' :
  stripLit true l s = Some s' ↔
  ∃ kw, s = kw ++ s' ∧ canon <$> kw = canon <$> l.
Proof.
  revert s. induction l as [|c l IH]; intros s; simpl.
  - split.
    + intros [= ->]. by exists [].
    + intros (kw & -> & Hkw). by destruct kw.
  - destruct s as [|x s].
    + split; [done|]. intros (kw & E & Hkw). destruct kw; [done|]. done.
    + unfold chr_eq. destruct (canon c =? canon x) eqn:E.
      * apply N.eqb_eq in E. rewrite IH. split.
        -- intros (kw & -> & Hkw). exists (x :: kw).
           rewrite !fmap_cons, Hkw, E. done.
        -- intros (kw & Hs & Hkw). destruct kw as [|y kw]; [done|].
           rewrite !fmap_cons in Hkw. rewrite <- app_comm_cons in Hs.
           injection Hs as -> ->. injection Hkw as _ Hkw. by exists kw.
      * apply N.eqb_neq in E. split; [done|].
        intros (kw & Hs & Hkw). destruct kw as [|y kw]; [done|].
        rewrite !fmap_cons in Hkw. rewrite <- app_comm_cons in Hs.
        injection Hs as -> ->. injection Hkw as Hy _. congruence.
Qed.

Lemma stripLit_prefixCI l s :
  prefixCI l s = false → stripLit true l s = None.
Proof.
  revert s. induction l as [|c l IH]; intros s; simpl; [done|].
  destruct s as [|x s]; [done|]. unfold chr_eq.
  destruct (canon c =? canon x); simpl; [apply IH | done].
Qed.

(** [s.match(r)] finds the leftmost place where [r] matches. *)
Lemma jsmatch_Some ci r s caps :
  jsmatch ci r s = Some caps ↔
  ∃ pre t, s = pre ++ t ∧ match_at ci r t = Some caps
    ∧ ∀ pre' t', s = pre' ++ t' → (length pre' < length pre)%nat →
        match_at ci r t' = None.
Proof.
  induction s as [|x s IH].
  - simpl. split.
    + destruct (match_at ci r []) eqn:E; [|done]. intros [= ->].
      exists [], []. repeat split; [done|]. simpl; lia.
    + intros (pre & t & Hs & Hm & _). symmetry in Hs.
      apply app_eq_nil in Hs as [-> ->]. by rewrite Hm.
  - simpl. destruct (match_at ci r (x :: s)) eqn:E.
    + split.
      * intros [= ->]. exists [], (x :: s). repeat split; [done|]. simpl; lia.
      * intros (pre & t & Hs & Hm & Hfirst).
        destruct pre as [|y pre].
        -- simpl in Hs. subst t. congruence.
        -- specialize (Hfirst [] (x :: s) eq_refl). simpl in Hfirst.
           rewrite Hfirst in E by lia. done.
    + rewrite IH. split.
      * intros (pre & t & -> & Hm & Hfirst). exists (x :: pre), t.
        repeat split; [done|]. intros pre' t' Hs Hlen.
        destruct pre' as [|y pre']; simpl in *.
        -- by subst t'.
        -- injection Hs as -> Hs. apply (Hfirst pre' t' Hs). lia.
      * intros (pre & t & Hs & Hm & Hfirst). destruct pre as [|y pre].
        -- simpl in Hs. subst t. congruence.
        -- simpl in Hs. injection Hs as -> ->. exists pre, t.
           repeat split; [done|]. intros pre' t' Hs Hlen.
           apply (Hfirst (y :: pre') t'); simpl; [by rewrite Hs | lia].
Qed.

Lemma jsmatch_None ci r s :
  jsmatch ci r s = None ↔ ∀ pre t, s = pre ++ t → match_at ci r t = None.
Proof.
  induction s as [|x s IH]; simpl.
  - split.
    + destruct (match_at ci r []) eqn:E; [done|]. intros _ pre t Hs.
      symmetry in Hs. by apply app_eq_nil in Hs as [-> ->].
    + intros H. by rewrite (H [] []).
  - destruct (match_at ci r (x :: s)) eqn:E.
    + split; [done|]. intros H. rewrite (H [] (x :: s)) in E; done.
    + rewrite IH. split.
      * intros H pre t Hs. destruct pre as [|y pre]; simpl in Hs.
        -- by subst t.
        -- injection Hs as -> Hs. by apply (H pre).
      * intros H pre t ->. by apply (H (x :: pre)).
Qed.

End Matcher.

(** ** The decision-apply cycle *)

Section DecisionApply.
Import Approve.

Lemma commandRegex_needs_keyword keyword s :
  prefixCI keyword s = false → match_at true (commandRegex keyword) s = None.
Proof.
  intros H. unfold match_at, commandRegex. simpl.
  by rewrite rmatch_lit, stripLit_prefixCI.
Qed.

Lemma jsmatch_needs_keyword keyword s :
  occursCI keyword s = false → jsmatch true (commandRegex keyword) s = None.
Proof.
  induction s as [|x s IH]; simpl; intros [H1 H2]%orb_false_elim.
  - by rewrite commandRegex_needs_keyword.
  - rewrite commandRegex_needs_keyword by done. by apply IH.
Qed.

(** What [main] does once a command is recognised and the file loads. *)
Lemma main_applies env w data command :
  file w = Some data →
  parseCommand (orElse (ISSUE_COMMENT env) []) = Some command →
  main env w
  = (Completed,
     savePublications env
       (applyDecision command
          (buildPublication env (parseIssueBody (orElse (ISSUE_BODY env) [])))
          data)
       {| file := file w; fsTrace := fsTrace w ++ [FsRead] |}).
Proof.
  intros Hf Hc. unfold main.
  destruct (orElse (ISSUE_COMMENT env) []) as [|c comment] eqn:E.
  - discriminate Hc.
  - rewrite Hc. unfold loadPublications. by rewrite Hf.
Qed.

End DecisionApply.

(** C8.  A comment in which neither [/approve] nor [/reject] occurs, in
    any letter case: [parseCommand] returns nothing and [main] exits
    (status 0, or 1 for the empty comment) with the file neither read
    nor written. *)
Theorem no_command_no_file_access (env : Approve.Env) (w : Approve.World) :
  let comment := orElse (Approve.ISSUE_COMMENT env) [] in
  occursCI (js "/approve") comment = false →
  occursCI (js "/reject") comment = false →
  Approve.parseCommand comment = None
  ∧ Approve.main env w
    = (Approve.Exit (match comment with [] => 1 | _ => 0 end)%Z, w).
Proof.
  intros comment Ha Hr.
  assert (Hp : Approve.parseCommand comment = None).
  { unfold Approve.parseCommand.
    by rewrite !jsmatch_needs_keyword. }
  split; [done|].
  unfold Approve.main. fold comment. destruct comment; [done|]. by rewrite Hp.
Qed.

Lemma no_command_no_file_access_witness :
  let env := {| Approve.ISSUE_COMMENT := Some (js "Looks good to me, thanks");
                Approve.ISSUE_BODY := Some (js "**Title:** Foo");
                Approve.ISSUE_NUMBER := Some (js "7");
                Approve.currentYear := 2025%Z;
                Approve.currentIso := js "2025-01-01T00:00:00.000Z";
                Approve.randomSuffix := js "abc" |} in
  let w := {| Approve.file := None; Approve.fsTrace := [] |} in
  Approve.main env w = (Approve.Exit 0, w).
Proof.
  intros env w.
  apply (no_command_no_file_access env w); reflexivity.
Defined.

(** C7.  Once a command is recognised and the dataset loads, the file is
    read once and written once; the written dataset has the [pending]
    list of the loaded one, and the built entry at the end of [approved]
    with [rejected] as loaded (approve), or at the end of [rejected] with
    [approved] as loaded (reject). *)
Theorem decision_touches_one_list (env : Approve.Env) (w : Approve.World)
    (data : Dataset) (command : Approve.Command) :
  Approve.file w = Some data →
  Approve.parseCommand (orElse (Approve.ISSUE_COMMENT env) []) = Some command →
  let publication :=
    Approve.buildPublication env
      (Approve.parseIssueBody (orElse (Approve.ISSUE_BODY env) [])) in
  ∃ data',
    Approve.main env w
    = (Approve.Completed,
       {| Approve.file := Some data';
          Approve.fsTrace :=
            Approve.fsTrace w ++ [Approve.FsRead; Approve.FsWrite data'] |})
    ∧ pending data' = pending data
    ∧ match Approve.action command with
      | Approve.approve =>
          approved data' = approved data ++ [publication]
          ∧ rejected data' = rejected data
      | Approve.reject =>
          rejected data' = rejected data ++ [publication]
          ∧ approved data' = approved data
      end.
Proof.
  intros Hf Hc publication.
  rewrite (main_applies env w data command Hf Hc).
  unfold Approve.savePublications, Approve.applyDecision. fold publication.
  eexists. split.
  - simpl. rewrite <- app_assoc. reflexivity.
  - simpl. destruct (Approve.action command); simpl; done.
Qed.

Lemma decision_touches_one_list_witness :
  let env := {| Approve.ISSUE_COMMENT := Some (js "/reject pmid:123");
                Approve.ISSUE_BODY := Some (js "**Title:** Foo");
                Approve.ISSUE_NUMBER := Some (js "7");
                Approve.currentYear := 2025%Z;
                Approve.currentIso := js "2025-01-01T00:00:00.000Z";
                Approve.randomSuffix := js "abc" |} in
  let data := {| approved := []; pending := []; rejected := [];
                 lastUpdated := js "2024-01-01T00:00:00.000Z" |} in
  let w := {| Approve.file := Some data; Approve.fsTrace := [] |} in
  ∃ data',
    (Approve.main env w).2.(Approve.file) = Some data'
    ∧ pending data' = [] ∧ approved data' = []
    ∧ length (rejected data') = 1%nat.
Proof.
  intros env data w.
  destruct (decision_touches_one_list env w data
              {| Approve.action := Approve.reject; Approve.idType := js "pmid";
                 Approve.idValue := js "123" |})
    as (data' & Hm & Hp & Hr & Ha); [reflexivity | reflexivity |].
  exists data'. rewrite Hm, Hp, Hr, Ha. repeat split; reflexivity.
Defined.

(** C9.  The entry the decision appends has the title, authors, journal,
    year, doi and pmid parsed from the request body; and any other
    comment carrying a command with the same action, whatever its
    identifier type and value, ends the run in the same state: the
    identifier of the command is compared with nothing and stored
    nowhere. *)
Theorem stored_entry_comes_from_body (env : Approve.Env) (w : Approve.World)
    (data : Dataset) (command command' : Approve.Command) (comment' : str) :
  Approve.file w = Some data →
  Approve.parseCommand (orElse (Approve.ISSUE_COMMENT env) []) = Some command →
  Approve.parseCommand comment' = Some command' →
  Approve.action command' = Approve.action command →
  let pubDetails := Approve.parseIssueBody (orElse (Approve.ISSUE_BODY env) []) in
  (∃ data' entry,
      (Approve.main env w).2.(Approve.file) = Some data'
      ∧ (approved data' = approved data ++ [entry]
           ∧ rejected data' = rejected data
         ∨ rejected data' = rejected data ++ [entry]
           ∧ approved data' = approved data)
      ∧ c_title entry = d_title pubDetails
      ∧ c_authors entry = d_authors pubDetails
      ∧ c_journal entry = d_journal pubDetails
      ∧ c_year entry = d_year pubDetails
      ∧ c_doi entry = d_doi pubDetails
      ∧ c_pmid entry = d_pmid pubDetails)
  ∧ Approve.main (withComment env comment') w = Approve.main env w.
Proof.
  intros Hf Hc Hc' Ha pubDetails. split.
  - rewrite (main_applies env w data command Hf Hc). fold pubDetails.
    eexists _, (Approve.buildPublication env pubDetails). split; [reflexivity|].
    split; [|done].
    unfold Approve.applyDecision. destruct (Approve.action command); simpl.
    + by left.
    + by right.
  - assert (Hc2 : Approve.parseCommand
                    (orElse (Approve.ISSUE_COMMENT (withComment env comment')) [])
                  = Some command').
    { simpl. destruct comment' as [|c comment']; [discriminate Hc' | done]. }
    rewrite (main_applies _ w data command' Hf Hc2).
    rewrite (main_applies env w data command Hf Hc).
    unfold Approve.applyDecision. rewrite Ha. reflexivity.
Qed.

Lemma stored_entry_comes_from_body_witness :
  let env := {| Approve.ISSUE_COMMENT := Some (js "/approve doi:10.5/y");
                Approve.ISSUE_BODY :=
                  Some (js "**Title:** Foo" ++ nl ++ js "**DOI:** 10.5/y");
                Approve.ISSUE_NUMBER := Some (js "7");
                Approve.currentYear := 2025%Z;
                Approve.currentIso := js "2025-01-01T00:00:00.000Z";
                Approve.randomSuffix := js "abc" |} in
  let data := {| approved := []; pending := []; rejected := [];
                 lastUpdated := js "2024-01-01T00:00:00.000Z" |} in
  let w := {| Approve.file := Some data; Approve.fsTrace := [] |} in
  Approve.main (withComment env (js "/approve pmid:999")) w = Approve.main env w.
Proof.
  intros env data w.
  apply (stored_entry_comes_from_body env w data
           {| Approve.action := Approve.approve; Approve.idType := js "doi";
              Approve.idValue := js "10.5/y" |}
           {| Approve.action := Approve.approve; Approve.idType := js "pmid";
              Approve.idValue := js "999" |});
    reflexivity.
Defined.

(** C3.  Scenario B: the comment [/approve doi:10.5/y] parses to the
    decision approve, doi, 10.5/y; run against a request body with the
    fields [**Title:** Foo] and [**DOI:** 10.5/y] (the two fields alone,
    or the body rendered for such a record), [main] writes a dataset in
    which [approved] has one entry more, titled Foo, whose only link is
    [paper], to https://doi.org/10.5/y; [pending] and [rejected] are as
    loaded. *)
Theorem scenario_B_approve (env : Approve.Env) (w : Approve.World)
    (data : Dataset) (body : str) :
  Approve.ISSUE_COMMENT env = Some (js "/approve doi:10.5/y") →
  Approve.ISSUE_BODY env = Some body →
  body = scenarioB_fields ∨ body = scenarioB_rendered →
  Approve.file w = Some data →
  Approve.parseCommand (js "/approve doi:10.5/y")
  = Some {| Approve.action := Approve.approve; Approve.idType := js "doi";
            Approve.idValue := js "10.5/y" |}
  ∧ ∃ data' entry,
      (Approve.main env w).1 = Approve.Completed
      ∧ (Approve.main env w).2.(Approve.file) = Some data'
      ∧ approved data' = approved data ++ [entry]
      ∧ c_title entry = js "Foo"
      ∧ c_doi entry = Some (js "10.5/y")
      ∧ c_links entry = {[ js "paper" := js "https://doi.org/10.5/y" ]}
      ∧ pending data' = pending data
      ∧ rejected data' = rejected data.
Proof.
  intros Hcomment Hbody Hb Hf.
  assert (Hc : Approve.parseCommand (js "/approve doi:10.5/y")
    = Some {| Approve.action := Approve.approve; Approve.idType := js "doi";
              Approve.idValue := js "10.5/y" |}) by (vm_compute; reflexivity).
  split; [exact Hc|].
  assert (Hc' : Approve.parseCommand (orElse (Approve.ISSUE_COMMENT env) [])
                = Some {| Approve.action := Approve.approve;
                          Approve.idType := js "doi";
                          Approve.idValue := js "10.5/y" |}).
  { rewrite Hcomment. exact Hc. }
  rewrite (main_applies env w data _ Hf Hc'). rewrite Hbody.
  assert (Hd : d_title (Approve.parseIssueBody body) = js "Foo"
               ∧ d_doi (Approve.parseIssueBody body) = Some (js "10.5/y")).
  { destruct Hb as [-> | ->]; split; vm_compute; reflexivity. }
  destruct Hd as [Ht Hd].
  assert (Hbody' : orElse (Some body) [] = body).
  { destruct Hb as [-> | ->]; reflexivity. }
  rewrite Hbody'.
  eexists _, (Approve.buildPublication env (Approve.parseIssueBody body)).
  split; [reflexivity|]. split; [reflexivity|]. split; [reflexivity|].
  split; [exact Ht|]. split; [exact Hd|].
  split; [|split; reflexivity].
  change (c_links (Approve.buildPublication env (Approve.parseIssueBody body)))
    with (if truthy (d_doi (Approve.parseIssueBody body))
          then {[ js "paper" :=
                    js "https://doi.org/"
                    ++ Fetch.template (d_doi (Approve.parseIssueBody body)) ]}
          else (∅ : gmap str str)).
  rewrite Hd. reflexivity.
Qed.

Lemma scenario_B_approve_witness :
  let env := {| Approve.ISSUE_COMMENT := Some (js "/approve doi:10.5/y");
                Approve.ISSUE_BODY := Some scenarioB_rendered;
                Approve.ISSUE_NUMBER := Some (js "7");
                Approve.currentYear := 2025%Z;
                Approve.currentIso := js "2025-01-01T00:00:00.000Z";
                Approve.randomSuffix := js "abc" |} in
  let data := {| approved := []; pending := []; rejected := [];
                 lastUpdated := js "2024-01-01T00:00:00.000Z" |} in
  let w := {| Approve.file := Some data; Approve.fsTrace := [] |} in
  ∃ data' entry,
    (Approve.main env w).2.(Approve.file) = Some data'
    ∧ approved data' = [entry]
    ∧ c_links entry !! js "paper" = Some (js "https://doi.org/10.5/y").
Proof.
  intros env data w.
  destruct (scenario_B_approve env w data scenarioB_rendered)
    as (_ & data' & entry & _ & Hfile & Happ & _ & _ & Hlinks & _);
    [reflexivity | reflexivity | right; reflexivity | reflexivity |].
  exists data', entry. split; [exact Hfile | split; [exact Happ |]].
  rewrite Hlinks. apply lookup_singleton_eq.
Defined.

(** ** Rendering a review request *)

Section Rendering.
Import Fetch.

Lemma trimEnd_app x y :
  trimEnd (x ++ y) = match trimEnd y with [] => trimEnd x | t => x ++ t end.
Proof.
  induction x as [|c x IH]; simpl.
  - by destruct (trimEnd y).
  - rewrite IH. destruct (trimEnd y) as [|d t]; [done|].
    by destruct (x ++ d :: t) eqn:E; [destruct x|].
Qed.

Lemma trimEnd_id s d : last s = Some d → is_ws d = false → trimEnd s = s.
Proof.
  intros Hl Hd. induction s as [|c s IH]; [done|]. simpl.
  destruct s as [|c' s].
  - simpl in *. injection Hl as ->. by rewrite Hd.
  - rewrite last_cons_cons in Hl. rewrite (IH Hl). done.
Qed.

Lemma trimStart_id s c : head s = Some c → is_ws c = false → trimStart s = s.
Proof. destruct s as [|x s]; simpl; [done|]. intros [= ->] ->. done. Qed.

Lemma trim_id s c d :
  head s = Some c → is_ws c = false → last s = Some d → is_ws d = false →
  trim s = s.
Proof.
  intros Hh Hc Hl Hd. unfold trim.
  rewrite (trimStart_id s c Hh Hc). by apply (trimEnd_id s d).
Qed.

(** The template starts and ends with a line break, which [trim] takes
    away; nothing else goes. *)
Lemma generateIssueBody_eq pub :
  generateIssueBody pub
  = renderedText pub
      (if truthy (doi pub) then js "**DOI:** " ++ template (doi pub) else [])
      (if truthy (pmid pub) then js "**PMID:** " ++ template (pmid pub) else []).
Proof.
  unfold generateIssueBody.
  set (dl := if truthy (doi pub) then _ else _).
  set (pl := if truthy (pmid pub) then _ else _).
  match goal with |- trim ?t = _ =>
    replace t with (nl ++ renderedText pub dl pl ++ nl)
      by (unfold renderedText; rewrite <- !app_assoc; reflexivity)
  end.
  unfold trim. change (trimStart (nl ++ ?x)) with (trimStart x).
  rewrite (trimStart_id _ 35) by reflexivity.
  rewrite trimEnd_app. change (trimEnd nl) with (@nil N).
  apply (trimEnd_id _ 96); [|reflexivity].
  unfold renderedText. rewrite !last_app. reflexivity.
Qed.

End Rendering.

(** C6, as the code has it.  For a record with neither doi nor pmid
    present, the rendered body ends with the two command templates on
    [pmid:] followed by the [pmid] field as a template prints it: the
    text [null] when the field is [null], nothing when it is the empty
    string. *)
Theorem no_identifier_command_templates (pub : PublicationRecord) :
  truthy (doi pub) = false → truthy (pmid pub) = false →
  commandTemplates
    (js "pmid:" ++ match pmid pub with None => js "null" | Some _ => [] end)
    `suffix_of` Fetch.generateIssueBody pub.
Proof.
  intros Hd Hp. rewrite generateIssueBody_eq. unfold renderedText.
  assert (Hid : Fetch.commandId pub
    = js "pmid:" ++ match pmid pub with None => js "null" | Some _ => [] end).
  { unfold Fetch.commandId. rewrite Hd.
    destruct (pmid pub) as [[|? ?]|]; simpl in *; done. }
  rewrite Hid.
  do 38 apply suffix_app_r. reflexivity.
Qed.

Lemma no_identifier_command_templates_witness :
  commandTemplates (js "pmid:null")
  `suffix_of` Fetch.generateIssueBody
    {| title := js "Foo"; authors := None; journal := []; year := None;
       doi := None; pmid := None; source := orcid |}.
Proof.
  apply (no_identifier_command_templates
           {| title := js "Foo"; authors := None; journal := []; year := None;
              doi := None; pmid := None; source := orcid |});
    reflexivity.
Defined.

(** C6, as stated, fails on the record ORCID yields for a work without
    identifiers: its body ends with [/reject pmid:null], not with an
    empty value after [pmid:]. *)
Lemma no_identifier_command_not_empty :
  let pub := {| title := js "Foo"; authors := None; journal := [];
                year := None; doi := None; pmid := None; source := orcid |} in
  truthy (doi pub) = false ∧ truthy (pmid pub) = false
  ∧ ¬ commandTemplates (js "pmid:") `suffix_of` Fetch.generateIssueBody pub.
Proof.
  intros pub. split; [reflexivity|]. split; [reflexivity|].
  apply (bool_decide_eq_false_1 _). vm_compute. reflexivity.
Qed.

(** ** Command recognition *)

Section CommandMatch.
Import Approve.

Implicit Types (s : str) (caps : list str).

Lemma take_consumed (a b : str) : take (length (a ++ b) - length b) (a ++ b) = a.
Proof.
  rewrite length_app, Nat.add_sub. apply take_app_length.
Qed.

(** A group around [p+] at the end of a pattern captures the longest run. *)
Lemma plus_group ci p s caps :
  rmatch ci (Grp (Plus p)) s caps (λ _ c, Some c)
  = match run p s with [] => None | v => Some (caps ++ [v]) end.
Proof.
  destruct s as [|y s]; [done|]. simpl. destruct (p y) eqn:E; [|done].
  erewrite star_greedy; [|reflexivity]. do 3 f_equal.
  rewrite (run_afterRun p s) at 1 3.
  pose proof (take_consumed (y :: run p s) (afterRun p s)) as H.
  simpl in H. simpl. exact H.
Qed.

Lemma ws_not_letter c : is_ws c = true → (canon c =? 68) = false ∧ (canon c =? 80) = false.
Proof.
  unfold is_ws, canon, is_lower.
  rewrite !orb_true_iff, !andb_true_iff, !N.eqb_eq, !N.leb_le, !N.eqb_neq.
  intros H. destruct (97 <=? c) eqn:E1; destruct (c <=? 122) eqn:E2; simpl;
    try apply N.leb_le in E1; try apply N.leb_le in E2;
    try apply N.leb_gt in E1; try apply N.leb_gt in E2; lia.
Qed.

Lemma idToken_eq s caps :
  idToken s caps =
  match
    match stripLit true (js "doi:") s with
    | Some s' =>
        match run not_ws s' with
        | [] => None
        | v => Some ((caps ++ [take (length s - length s') s]) ++ [v])
        end
    | None => None
    end
  with
  | Some x => Some x
  | None =>
      match stripLit true (js "pmid:") s with
      | Some s' =>
          match run not_ws s' with
          | [] => None
          | v => Some ((caps ++ [take (length s - length s') s]) ++ [v])
          end
      | None => None
      end
  end.
Proof.
  unfold idToken.
  change (rmatch true (Cat (Grp (Alt ?a ?b)) ?r) s caps ?k)
    with (match rmatch true a s caps
                  (λ s' caps', rmatch true r s' (caps' ++ [take (length s - length s') s]) k)
          with Some x => Some x
          | None => rmatch true b s caps
                  (λ s' caps', rmatch true r s' (caps' ++ [take (length s - length s') s]) k)
          end).
  rewrite !rmatch_lit.
  destruct (stripLit true (js "doi:") s) as [s'|];
  destruct (stripLit true (js "pmid:") s) as [s''|]; rewrite ?plus_group; reflexivity.
Qed.

Lemma stripLit_take l s s' :
  stripLit true l s = Some s' →
  ∃ kw, s = kw ++ s' ∧ canon <$> kw = canon <$> l
        ∧ take (length s - length s') s = kw.
Proof.
  intros (kw & -> & Hkw)%stripLit_ci_Some. exists kw.
  split; [done|]. split; [done|]. apply take_consumed.
Qed.

Lemma not_ws_false c : not_ws c = false ↔ is_ws c = true.
Proof. unfold not_ws. by destruct (is_ws c). Qed.

Lemma idToken_Some s caps r :
  idToken s caps = Some r ↔
  ∃ idt tok rest,
    s = idt ++ tok ++ rest
    ∧ (canon <$> idt = canon <$> js "doi:" ∨ canon <$> idt = canon <$> js "pmid:")
    ∧ tok ≠ [] ∧ Forall (λ c, not_ws c = true) tok
    ∧ (∀ c, head rest = Some c → is_ws c = true)
    ∧ r = caps ++ [idt; tok].
Proof.
  rewrite idToken_eq. split.
  - assert (Hbranch : ∀ l,
      (canon <$> l = canon <$> js "doi:" ∨ canon <$> l = canon <$> js "pmid:") →
      match stripLit true l s with
      | Some s' =>
          match run not_ws s' with
          | [] => None
          | v => Some ((caps ++ [take (length s - length s') s]) ++ [v])
          end
      | None => None
      end = Some r →
      ∃ idt tok rest,
        s = idt ++ tok ++ rest
        ∧ (canon <$> idt = canon <$> js "doi:" ∨ canon <$> idt = canon <$> js "pmid:")
        ∧ tok ≠ [] ∧ Forall (λ c, not_ws c = true) tok
        ∧ (∀ c, head rest = Some c → is_ws c = true)
        ∧ r = caps ++ [idt; tok]).
    { intros l Hl H.
      destruct (stripLit true l s) as [s'|] eqn:E; [|done].
      apply stripLit_take in E as (kw & Hs & Hkw & Htk).
      rewrite Htk in H. subst s.
      destruct (run not_ws s') as [|y v] eqn:Er; [done|].
      injection H as <-.
      exists kw, (y :: v), (afterRun not_ws s').
      split; [by rewrite <- Er, <- run_afterRun|].
      split; [destruct Hl as [<- | <-]; auto|].
      split; [done|]. split; [rewrite <- Er; apply run_Forall|].
      split; [intros c Hc; by apply not_ws_false, (afterRun_head _ s')|].
      by rewrite <- app_assoc. }
    intros H.
    destruct (match stripLit true (js "doi:") s with Some _ => _ | None => _ end)
      eqn:E1.
    + injection H as ->. by apply (Hbranch (js "doi:")); [left|].
    + by apply (Hbranch (js "pmid:")); [right|].
  - intros (idt & tok & rest & -> & Hidt & Htok & Hall & Hrest & ->).
    assert (Hrun : run not_ws (tok ++ rest) = tok).
    { apply run_app; [done|]. intros c Hc. by apply not_ws_false, Hrest. }
    assert (Hstrip : ∀ l, canon <$> idt = canon <$> l →
              stripLit true l (idt ++ tok ++ rest) = Some (tok ++ rest)).
    { intros l Hl. apply stripLit_ci_Some. by exists idt. }
    assert (Htake : take (length (idt ++ tok ++ rest) - length (tok ++ rest))
                      (idt ++ tok ++ rest) = idt) by apply take_consumed.
    destruct tok as [|t0 tok]; [done|].
    destruct Hidt as [Hd | Hp].
    + rewrite (Hstrip _ Hd), Hrun, Htake. by rewrite <- app_assoc.
    + rewrite (Hstrip _ Hp), Hrun, Htake.
      assert (Hno : stripLit true (js "doi:") (idt ++ (t0 :: tok) ++ rest) = None).
      { destruct idt as [|c0 idt]; [done|].
        rewrite fmap_cons in Hp. injection Hp as Hc0 _.
        simpl. unfold chr_eq. by rewrite Hc0. }
      rewrite Hno. by rewrite <- app_assoc.
Qed.

Lemma idToken_ws c t caps : is_ws c = true → idToken (c :: t) caps = None.
Proof.
  intros [H1 H2]%ws_not_letter. rewrite idToken_eq.
  change (js "doi:") with (100 :: js "oi:").
  change (js "pmid:") with (112 :: js "mid:").
  cbn [stripLit chr_eq].
  change (canon 100) with 68. change (canon 112) with 80.
  by rewrite (N.eqb_sym 68), (N.eqb_sym 80), H1, H2.
Qed.

Lemma commandRegex_at keyword s :
  match_at true (commandRegex keyword) s
  = match stripLit true keyword s with
    | Some (x :: s1) =>
        if is_ws x then idToken (afterRun is_ws s1) [] else None
    | _ => None
    end.
Proof.
  unfold match_at, commandRegex.
  change (rmatch true (Cat (lit keyword) ?r) s [] ?k)
    with (rmatch true (lit keyword) s [] (λ s' caps', rmatch true r s' caps' k)).
  rewrite rmatch_lit. destruct (stripLit true keyword s) as [[|x s1]|]; try done.
  change (rmatch true (Cat (Plus is_ws) ?r) (x :: s1) [] ?k)
    with (if is_ws x then star is_ws s1 (λ s'', idToken s'' []) else None).
  destruct (is_ws x); [|done].
  apply star_no_backtrack.
  intros c t Hc. by apply idToken_ws.
Qed.

Lemma commandAt_match keyword s caps :
  match_at true (commandRegex keyword) s = Some caps ↔
  ∃ idt tok, caps = [idt; tok] ∧ CommandAt keyword s idt tok.
Proof.
  rewrite commandRegex_at. split.
  - destruct (stripLit true keyword s) as [[|x s1]|] eqn:E; try done.
    destruct (is_ws x) eqn:Ex; [|done].
    intros (idt & tok & rest & Hs & Hidt & Htok & Hall & Hrest & ->)%idToken_Some.
    apply stripLit_ci_Some in E as (kw & -> & Hkw).
    exists idt, tok. split; [done|].
    exists kw, (x :: run is_ws s1), rest.
    split. { simpl. by rewrite <- Hs, <- run_afterRun. }
    split; [done|]. split; [done|].
    split; [constructor; [done | apply run_Forall]|]. done.
  - intros (idt & tok & -> & kw & ws & rest & -> & Hkw & Hws & Hall & Hidt & Htok
            & Htall & Hrest).
    assert (E : stripLit true keyword (kw ++ ws ++ idt ++ tok ++ rest)
                = Some (ws ++ idt ++ tok ++ rest)).
    { apply stripLit_ci_Some. by exists kw. }
    rewrite E. destruct ws as [|x ws]; [done|].
    apply Forall_cons in Hall as [Hx Hall]. simpl. rewrite Hx.
    assert (Hafter : afterRun is_ws (ws ++ idt ++ tok ++ rest) = idt ++ tok ++ rest).
    { apply run_app; [done|]. intros c Hc.
      destruct (is_ws c) eqn:Ec; [|done]. apply ws_not_letter in Ec as [E1 E2].
      destruct idt as [|c0 idt]; [by destruct Hidt|].
      simpl in Hc. injection Hc as ->.
      rewrite !fmap_cons in Hidt.
      destruct Hidt as [Hidt | Hidt]; injection Hidt as Hc0 _;
        rewrite Hc0 in *; done. }
    rewrite Hafter. apply idToken_Some.
    exists idt, tok, rest. done.
Qed.

Lemma FirstCommand_jsmatch keyword comment idt tok :
  FirstCommand keyword comment idt tok ↔
  jsmatch true (commandRegex keyword) comment = Some [idt; tok].
Proof.
  rewrite jsmatch_Some. split.
  - intros (pre & t & -> & Hat & Hfirst). exists pre, t.
    split; [done|]. split.
    + apply commandAt_match. by exists idt, tok.
    + intros pre' t' Hs Hlen.
      destruct (match_at true (commandRegex keyword) t') as [caps|] eqn:E; [|done].
      apply commandAt_match in E as (idt' & tok' & _ & Hat').
      by destruct (Hfirst pre' t' idt' tok' Hs Hlen).
  - intros (pre & t & -> & Hm & Hfirst). exists pre, t.
    split; [done|]. split.
    + apply commandAt_match in Hm as (idt' & tok' & [= -> ->] & Hat). done.
    + intros pre' t' idt' tok' Hs Hlen Hat.
      specialize (Hfirst pre' t' Hs Hlen).
      assert (match_at true (commandRegex keyword) t' = Some [idt'; tok'])
        by (apply commandAt_match; by exists idt', tok').
      congruence.
Qed.

Lemma NoCommand_jsmatch keyword comment :
  NoCommand keyword comment ↔ jsmatch true (commandRegex keyword) comment = None.
Proof.
  rewrite jsmatch_None. split.
  - intros Hno pre t Hs.
    destruct (match_at true (commandRegex keyword) t) as [caps|] eqn:E; [|done].
    apply commandAt_match in E as (idt & tok & _ & Hat).
    by destruct (Hno pre t idt tok Hs).
  - intros Hnone pre t idt tok Hs Hat.
    assert (match_at true (commandRegex keyword) t = Some [idt; tok])
      by (apply commandAt_match; by exists idt, tok).
    rewrite (Hnone pre t Hs) in H. done.
Qed.

End CommandMatch.

(** C4, as the code has it.  [parseCommand] returns the approve decision
    of the first [/approve] command whenever the comment holds one, else
    the reject decision of the first [/reject] command when it holds one,
    else nothing; the identifier type is the matched [doi:] or [pmid:]
    without its colon, in the letter case of the comment, and the value
    is the token.  Every comment falls under one of the three cases. *)
Theorem parseCommand_recognises (comment : str) :
  (∀ idt tok,
      FirstCommand (js "/approve") comment idt tok →
      Approve.parseCommand comment
      = Some {| Approve.action := Approve.approve;
                Approve.idType := replaceFirst 58 idt;
                Approve.idValue := tok |})
  ∧ (∀ idt tok,
      NoCommand (js "/approve") comment →
      FirstCommand (js "/reject") comment idt tok →
      Approve.parseCommand comment
      = Some {| Approve.action := Approve.reject;
                Approve.idType := replaceFirst 58 idt;
                Approve.idValue := tok |})
  ∧ (NoCommand (js "/approve") comment →
     NoCommand (js "/reject") comment →
     Approve.parseCommand comment = None)
  ∧ ((∃ idt tok, FirstCommand (js "/approve") comment idt tok)
     ∨ (NoCommand (js "/approve") comment
        ∧ ∃ idt tok, FirstCommand (js "/reject") comment idt tok)
     ∨ (NoCommand (js "/approve") comment ∧ NoCommand (js "/reject") comment)).
Proof.
  unfold Approve.parseCommand. repeat split.
  - intros idt tok H%FirstCommand_jsmatch. by rewrite H.
  - intros idt tok Hn%NoCommand_jsmatch H%FirstCommand_jsmatch.
    by rewrite Hn, H.
  - intros Hn%NoCommand_jsmatch Hr%NoCommand_jsmatch. by rewrite Hn, Hr.
  - destruct (jsmatch true (Approve.commandRegex (js "/approve")) comment)
      as [m|] eqn:Ea.
    + left. pose proof Ea as Ea'.
      apply jsmatch_Some in Ea' as (pre & t & _ & Hm & _).
      apply commandAt_match in Hm as (idt & tok & -> & _).
      exists idt, tok. by apply FirstCommand_jsmatch.
    + right. apply NoCommand_jsmatch in Ea.
      destruct (jsmatch true (Approve.commandRegex (js "/reject")) comment)
        as [m|] eqn:Er.
      * left. split; [done|]. pose proof Er as Er'.
        apply jsmatch_Some in Er' as (pre & t & _ & Hm & _).
        apply commandAt_match in Hm as (idt & tok & -> & _).
        exists idt, tok. by apply FirstCommand_jsmatch.
      * right. split; [done|]. by apply NoCommand_jsmatch.
Qed.

Lemma parseCommand_recognises_witness :
  Approve.parseCommand (js "Please /APPROVE  Doi:10.5/y now")
  = Some {| Approve.action := Approve.approve; Approve.idType := js "Doi";
            Approve.idValue := js "10.5/y" |}
  ∧ Approve.parseCommand (js "/reject pmid:123")
    = Some {| Approve.action := Approve.reject; Approve.idType := js "pmid";
              Approve.idValue := js "123" |}
  ∧ Approve.parseCommand (js "/approve doi: 10.5/y") = None.
Proof.
  split; [|split].
  - destruct (parseCommand_recognises (js "Please /APPROVE  Doi:10.5/y now"))
      as (H & _).
    apply (H (js "Doi:") (js "10.5/y")).
    apply FirstCommand_jsmatch. vm_compute. reflexivity.
  - destruct (parseCommand_recognises (js "/reject pmid:123")) as (_ & H & _).
    apply (H (js "pmid:") (js "123")).
    + apply NoCommand_jsmatch. vm_compute. reflexivity.
    + apply FirstCommand_jsmatch. vm_compute. reflexivity.
  - destruct (parseCommand_recognises (js "/approve doi: 10.5/y"))
      as (_ & _ & H & _).
    apply H.
    + apply NoCommand_jsmatch. vm_compute. reflexivity.
    + apply NoCommand_jsmatch. vm_compute. reflexivity.
Defined.

(** C4, as stated, fails where a [/reject] command comes before an
    [/approve] command: the leftmost command is the rejection, the
    decision returned is the approval. *)
Lemma parseCommand_prefers_approve :
  let comment := js "/reject doi:a /approve doi:b" in
  Approve.parseCommand comment
  = Some {| Approve.action := Approve.approve; Approve.idType := js "doi";
            Approve.idValue := js "b" |}
  ∧ specParseCommand comment
    = Some {| Approve.action := Approve.reject; Approve.idType := js "doi";
              Approve.idValue := js "a" |}
  ∧ Approve.parseCommand comment ≠ specParseCommand comment.
Proof.
  intros comment. split; [|split].
  - vm_compute. reflexivity.
  - vm_compute. reflexivity.
  - vm_compute. discriminate.
Qed.


(** ** Rendering, then parsing *)

Section RoundTrip.
Import Fetch Approve.
Implicit Types (s l v w : str) (p : N → bool).

Lemma fieldRegex_at l p s :
  match_at false (fieldRegex l p) s
  = match stripLit false l s with
    | Some s' => star is_ws s' (λ s'', rmatch false (Grp (Plus p)) s'' [] (λ _ c, Some c))
    | None => None
    end.
Proof.
  unfold match_at, fieldRegex.
  change (rmatch false (Cat (lit l) ?r) s [] ?k)
    with (rmatch false (lit l) s [] (λ s' caps', rmatch false r s' caps' k)).
  rewrite rmatch_lit. by destruct (stripLit false l s).
Qed.

Lemma misses_stripLit l t s : misses l t = true → stripLit false l (t ++ s) = None.
Proof.
  revert t. induction l as [|c l IH]; intros [|x t]; simpl; try done.
  unfold chr_eq. destruct (c =? x); [apply IH | done].
Qed.

(** A text inside which the label cannot start is passed over. *)
Lemma jsmatch_skip_text l p t s :
  missesAll l t = true →
  jsmatch false (fieldRegex l p) (t ++ s) = jsmatch false (fieldRegex l p) s.
Proof.
  induction t as [|x t IH]; [done|]. simpl missesAll.
  intros [Hm Hall]%andb_true_iff.
  change ((x :: t) ++ s) with (x :: (t ++ s)). cbn [jsmatch].
  rewrite fieldRegex_at.
  change (x :: (t ++ s)) with ((x :: t) ++ s).
  rewrite (misses_stripLit _ _ _ Hm). by apply IH.
Qed.

(** So is a field value without two asterisks in a row, when what
    follows does not start with an asterisk: every label starts with two. *)
Lemma jsmatch_skip_nostars l p w s :
  take 2 l = [42; 42] → no2star w = true →
  (∀ c, head s = Some c → c ≠ 42) →
  jsmatch false (fieldRegex l p) (w ++ s) = jsmatch false (fieldRegex l p) s.
Proof.
  intros Hl Hw Hs.
  destruct l as [|l0 [|l1 l]]; try done. injection Hl as -> ->.
  induction w as [|x w IH]; [done|].
  change ((x :: w) ++ s) with (x :: (w ++ s)). cbn [jsmatch].
  rewrite fieldRegex_at.
  cbn [no2star] in Hw. apply andb_true_iff in Hw as [Hx Hw].
  assert (Hno : stripLit false (42 :: 42 :: l) (x :: w ++ s) = None).
  { cbn [stripLit chr_eq]. rewrite (N.eqb_sym 42 x).
    destruct (x =? 42) eqn:Ex; [|done].
    destruct w as [|y w]; cbn [app].
    - destruct s as [|y s]; [done|]. specialize (Hs y eq_refl).
      cbn [stripLit chr_eq]. rewrite (N.eqb_sym 42 y).
      by apply N.eqb_neq in Hs as ->.
    - cbn [stripLit chr_eq]. rewrite (N.eqb_sym 42 y).
      cbn [negb andb] in Hx. by destruct (y =? 42). }
  rewrite Hno. by apply IH.
Qed.

Lemma jsmatch_here ci r s caps :
  match_at ci r s = Some caps → jsmatch ci r s = Some caps.
Proof. intros H. destruct s; simpl; by rewrite H. Qed.

(** At the label: the space after it is skipped and the value [v] is
    captured whole, up to the first code unit outside the class. *)
Lemma field_found l p lsp v rest :
  lsp = l ++ [32] →
  v ≠ [] → Forall (λ c, p c = true) v →
  (∀ c, head v = Some c → is_ws c = false) →
  (∀ c, head rest = Some c → p c = false) →
  jsmatch false (fieldRegex l p) (lsp ++ v ++ rest) = Some [v].
Proof.
  intros -> Hv Hp Hh Hr. apply jsmatch_here. rewrite fieldRegex_at.
  rewrite <- app_assoc, stripLit_app.
  apply star_greedy.
  assert (Ha : afterRun is_ws ([32] ++ v ++ rest) = v ++ rest).
  { destruct v as [|v0 v]; [done|]. cbn [app afterRun].
    change (is_ws 32) with true. cbv iota. by rewrite (Hh v0 eq_refl). }
  rewrite Ha, plus_group.
  destruct (run_app p v rest Hp Hr) as [-> _]. by destruct v.
Qed.

Lemma jsmatch_end l p t :
  t ≠ [] → missesAll l t = true → jsmatch false (fieldRegex l p) t = None.
Proof.
  intros Ht Hm. rewrite <- (app_nil_r t), jsmatch_skip_text by done.
  cbn [jsmatch]. rewrite fieldRegex_at.
  destruct t as [|x t]; [done|]. destruct l; [done|]. done.
Qed.

Ltac skip_step :=
  first
    [ rewrite jsmatch_skip_text by (vm_compute; reflexivity)
    | rewrite jsmatch_skip_nostars
        by first [ reflexivity | assumption | (intros ? [= <-]; discriminate) ] ].

(** *** Character classes *)

Lemma digit_props c :
  is_digit c = true → is_ws c = false ∧ c ≠ 42 ∧ is_lt c = false.
Proof.
  unfold is_digit. rewrite andb_true_iff, !N.leb_le. intros [H1 H2].
  repeat split.
  - destruct (is_ws c) eqn:E; [|done]. unfold is_ws in E.
    rewrite !orb_true_iff, !andb_true_iff, !N.eqb_eq, !N.leb_le in E. lia.
  - lia.
  - destruct (is_lt c) eqn:E; [|done]. unfold is_lt in E.
    rewrite !orb_true_iff, !N.eqb_eq in E. lia.
Qed.

Lemma nostar_no2star s : Forall (λ c, c ≠ 42) s → no2star s = true.
Proof.
  induction 1 as [|c s Hc Hs IH]; [done|]. cbn [no2star].
  apply N.eqb_neq in Hc. by rewrite Hc, IH.
Qed.

(** *** Decimal numbers *)

Lemma digitsFuel_S f n acc :
  digitsFuel (S f) n acc
  = if n <? 10 then (48 + n mod 10) :: acc
    else digitsFuel f (n / 10) ((48 + n mod 10) :: acc).
Proof. reflexivity. Qed.

Lemma digit_of_mod n : is_digit (48 + n mod 10) = true.
Proof.
  assert (Hm : n mod 10 < 10) by (apply N.mod_lt; lia).
  unfold is_digit. apply andb_true_iff. rewrite !N.leb_le.
  set (m := n mod 10) in *. clearbody m. lia.
Qed.

Lemma digitsFuel_value f : ∀ n acc,
  n < 2 ^ N.of_nat (S f) →
  digitsValue (digitsFuel (S f) n acc) 0 = digitsValue acc n.
Proof.
  assert (Hsmall : ∀ n acc, n < 10 →
            digitsValue ((48 + n mod 10) :: acc) 0 = digitsValue acc n).
  { intros n acc Hn. unfold digitsValue. cbn [fold_left].
    rewrite N.mod_small by lia. f_equal. lia. }
  induction f as [|f IH]; intros n acc Hn; rewrite digitsFuel_S.
  - change (2 ^ N.of_nat 1) with 2 in Hn.
    assert (Hlt : (n <? 10) = true) by (apply N.ltb_lt; lia). rewrite Hlt.
    apply Hsmall. lia.
  - destruct (n <? 10) eqn:Hlt.
    + apply N.ltb_lt in Hlt. by apply Hsmall.
    + apply N.ltb_ge in Hlt.
      pose proof (N.div_mod' n 10) as Hdm.
      rewrite IH.
      * unfold digitsValue. cbn [fold_left]. f_equal.
        set (q := n / 10) in *. set (m := n mod 10) in *. clearbody q m. lia.
      * rewrite Nat2N.inj_succ, N.pow_succ_r' in Hn.
        set (P := 2 ^ N.of_nat (S f)) in *.
        set (q := n / 10) in *. set (m := n mod 10) in *. clearbody P q m. lia.
Qed.

Lemma digitsFuel_digits f : ∀ n acc,
  ∃ pre, digitsFuel (S f) n acc = pre ++ acc ∧ pre ≠ []
         ∧ Forall (λ c, is_digit c = true) pre.
Proof.
  induction f as [|f IH]; intros n acc; rewrite digitsFuel_S.
  - exists [48 + n mod 10]. pose proof (digit_of_mod n).
    destruct (n <? 10); repeat split; try done; by constructor.
  - destruct (n <? 10).
    + exists [48 + n mod 10]. pose proof (digit_of_mod n).
      repeat split; try done. by constructor.
    + destruct (IH (n / 10) ((48 + n mod 10) :: acc)) as (pre & -> & Hne & Hall).
      exists (pre ++ [48 + n mod 10]). rewrite <- app_assoc. split; [done|].
      split; [by destruct pre|]. apply Forall_app. split; [done|].
      constructor; [apply digit_of_mod | done].
Qed.

Lemma showN_digits n : showN n ≠ [] ∧ Forall (λ c, is_digit c = true) (showN n).
Proof.
  unfold showN.
  destruct (digitsFuel_digits (N.to_nat (N.log2 n)) n []) as (pre & -> & Hne & Hall).
  by rewrite app_nil_r.
Qed.

Lemma run_all p s : Forall (λ c, p c = true) s → run p s = s.
Proof. induction 1 as [|c s Hc _ IH]; simpl; [done|]. by rewrite Hc, IH. Qed.

Lemma parseInt_showN n : parseInt (showN n) = Z.of_N n.
Proof.
  unfold parseInt. rewrite run_all by apply showN_digits.
  unfold showN. f_equal.
  apply (digitsFuel_value (N.to_nat (N.log2 n)) n []).
  rewrite Nat2N.inj_succ, N2Nat.id.
  destruct n as [|p]; [done|]. apply N.log2_spec. lia.
Qed.


(** At the label, when the value does not start in the class: no match
    there, and none that starts inside the label. *)
Lemma field_not_here l p lsp v rest c :
  lsp = l ++ [32] → l ≠ [] → missesAll l (tail lsp) = true →
  p 32 = false → head v = Some c → is_ws c = false → p c = false →
  jsmatch false (fieldRegex l p) (lsp ++ v ++ rest)
  = jsmatch false (fieldRegex l p) (v ++ rest).
Proof.
  intros -> Hl Hm Hsp Hv Hws Hp. destruct l as [|l0 l]; [done|].
  change (((l0 :: l) ++ [32]) ++ v ++ rest)
    with (l0 :: (tail ((l0 :: l) ++ [32]) ++ v ++ rest)).
  cbn [jsmatch]. rewrite jsmatch_skip_text by done.
  assert (Hat : match_at false (fieldRegex (l0 :: l) p)
                  (l0 :: tail ((l0 :: l) ++ [32]) ++ v ++ rest) = None).
  { change (l0 :: tail ((l0 :: l) ++ [32]) ++ v ++ rest)
      with (((l0 :: l) ++ [32]) ++ v ++ rest).
    rewrite fieldRegex_at, <- app_assoc, stripLit_app.
    destruct v as [|v0 v]; [done|]. injection Hv as ->.
    cbn [app star]. change (is_ws 32) with true. cbv iota.
    rewrite Hws, !plus_group. cbn [run]. by rewrite Hp, Hsp. }
  by rewrite Hat.
Qed.

Lemma head_Forall (P : N → Prop) v c : Forall P v → head v = Some c → P c.
Proof. destruct 1; [done|]. by intros [= <-]. Qed.

(** *** The six fields of a rendered body *)

Lemma orElse_Some v d : v ≠ [] → orElse (Some v) d = v.
Proof. by destruct v. Qed.

Lemma truthy_Some o : truthy o = true → ∃ v, o = Some v ∧ v ≠ [].
Proof. destruct o as [[|c v]|]; try done. intros _. by exists (c :: v). Qed.

Lemma optId_truthy o : optId o → truthy o = true → ∃ v, o = Some v ∧ idText v.
Proof. destruct o as [[|c v]|]; try done. intros H _. by exists (c :: v). Qed.

Lemma no2star_showN n : no2star (showN n) = true.
Proof.
  apply nostar_no2star. destruct (showN_digits n) as [_ H].
  eapply Forall_impl; [exact H|]. intros c Hc. by apply digit_props in Hc as (_ & ? & _).
Qed.

Lemma no2star_yearOrNA yo : no2star (yearOrNA yo) = true.
Proof.
  destruct yo as [z|]; [|done]. unfold yearOrNA, showNumber.
  destruct (z =? 0)%Z; [done|]. destruct (z <? 0)%Z.
  - cbn [no2star]. change (45 =? 42) with false. cbn [andb negb].
    apply no2star_showN.
  - apply no2star_showN.
Qed.

Lemma no2star_sourceName src : no2star (sourceName src) = true.
Proof. by destruct src. Qed.

Lemma no2star_template_falsy o : truthy o = false → no2star (template o) = true.
Proof. by destruct o as [[|c v]|]. Qed.

Lemma optLine_orElse o : optLine o → lineText (orElse o (js "N/A")).
Proof.
  assert (Hna : lineText (js "N/A")).
  { repeat split; try done.
    - repeat constructor.
    - by intros c [= <-].
    - by intros c [= <-]. }
  by destruct o as [[|c v]|].
Qed.

Section Body.
Variable pub : PublicationRecord.
Hypothesis Htitle : lineText (title pub).
Hypothesis Hauthors : lineText (orElse (authors pub) (js "N/A")).
Hypothesis Hjournal : lineText (orElse (Some (journal pub)) (js "N/A")).
Hypothesis Hdoi : optId (doi pub).
Hypothesis Hpmid : optId (pmid pub).

Let body : str :=
  renderedText pub
    (if truthy (doi pub) then js "**DOI:** " ++ template (doi pub) else [])
    (if truthy (pmid pub) then js "**PMID:** " ++ template (pmid pub) else []).

Ltac body_start :=
  unfold body, renderedText, commandId;
  pose proof Hauthors as Ha; pose proof Hjournal as Hj;
  set (au := orElse (authors pub) (js "N/A")) in Ha |- *;
  set (jo := orElse (Some (journal pub)) (js "N/A")) in Hj |- *;
  clearbody au jo;
  pose proof (proj2 (proj2 (proj2 (proj2 Htitle)))) as Hs1;
  pose proof (proj2 (proj2 (proj2 (proj2 Ha)))) as Hs2;
  pose proof (proj2 (proj2 (proj2 (proj2 Hj)))) as Hs3;
  pose proof (no2star_yearOrNA (year pub)) as Hs4;
  pose proof (no2star_sourceName (source pub)) as Hs5.

Ltac found H :=
  destruct H as (? & ? & ? & _ & _);
  apply field_found; [reflexivity | done | done | done | by intros ? [= <-]].

Lemma rendered_title :
  jsmatch false (fieldRegex (js "**Title:**") dot) body = Some [title pub].
Proof. body_start. repeat skip_step. found Htitle. Qed.

Lemma rendered_authors :
  jsmatch false (fieldRegex (js "**Authors:**") dot) body
  = Some [orElse (authors pub) (js "N/A")].
Proof. body_start. repeat skip_step. found Ha. Qed.

Lemma rendered_journal :
  jsmatch false (fieldRegex (js "**Journal:**") dot) body
  = Some [orElse (Some (journal pub)) (js "N/A")].
Proof. body_start. repeat skip_step. found Hj. Qed.


Ltac split_id o Ho Hopt v :=
  destruct (truthy o) eqn:Ho;
  [ destruct (optId_truthy o Hopt Ho) as (v & -> & ? & ? & ?)
  | pose proof (no2star_template_falsy o Ho) ];
  cbv iota; cbn [template].

Ltac to_end :=
  rewrite <- ?app_assoc; repeat skip_step;
  apply jsmatch_end; [done | vm_compute; reflexivity].

Ltac found_id :=
  rewrite <- ?app_assoc; repeat skip_step;
  apply field_found;
    [ reflexivity | done | done
    | intros c Hc;
      match goal with H : Forall _ _ |- _ =>
        pose proof (head_Forall _ _ _ H Hc) as Hn; cbv beta in Hn;
        unfold not_ws in Hn; by destruct (is_ws c) end
    | by intros ? [= <-] ].

Lemma rendered_doi :
  jsmatch false (fieldRegex (js "**DOI:**") not_ws) body
  = if truthy (doi pub) then Some [template (doi pub)] else None.
Proof.
  body_start.
  split_id (doi pub) Ed Hdoi d; split_id (pmid pub) Ep Hpmid p.
  - found_id.
  - found_id.
  - to_end.
  - to_end.
Qed.

Lemma rendered_pmid :
  jsmatch false (fieldRegex (js "**PMID:**") not_ws) body
  = if truthy (pmid pub) then Some [template (pmid pub)] else None.
Proof.
  body_start.
  split_id (doi pub) Ed Hdoi d; split_id (pmid pub) Ep Hpmid p.
  - found_id.
  - to_end.
  - found_id.
  - to_end.
Qed.


Lemma rendered_year :
  jsmatch false (fieldRegex (js "**Year:**") is_digit) body
  = match year pub with
    | Some y => if (0 <? y)%Z then Some [showNumber y] else None
    | None => None
    end.
Proof.
  body_start. destruct (year pub) as [y|].
  - destruct (Z.ltb_spec 0 y) as [Hy|Hy].
    + assert (Hyr : yearOrNA (Some y) = showN (Z.to_N y)).
      { unfold yearOrNA, showNumber.
        destruct (Z.eqb_spec y 0); [lia|]. destruct (Z.ltb_spec y 0); [lia|]. done. }
      assert (Hs : showNumber y = showN (Z.to_N y)).
      { unfold showNumber. destruct (Z.ltb_spec y 0); [lia|]. done. }
      rewrite Hyr in *. rewrite Hs.
      destruct (showN_digits (Z.to_N y)) as [Hne Hdig].
      repeat skip_step.
      apply field_found; [reflexivity | done | done | | by intros ? [= <-]].
      intros c Hc. pose proof (head_Forall _ _ _ Hdig Hc) as Hd. cbv beta in Hd.
      by apply digit_props in Hd as (? & _).
    + destruct (Z.eqb_spec y 0) as [->|Hne].
      * cbn [yearOrNA] in *. change (0 =? 0)%Z with true in *. cbv iota in *.
        repeat skip_step.
        rewrite (field_not_here _ _ _ _ _ 78) by first [reflexivity | discriminate].
        split_id (doi pub) Ed Hdoi d; split_id (pmid pub) Ep Hpmid p; to_end.
      * assert (Hyr : yearOrNA (Some y) = [45] ++ showN (Z.to_N (- y))).
        { unfold yearOrNA, showNumber.
          destruct (Z.eqb_spec y 0); [lia|]. destruct (Z.ltb_spec y 0); [|lia]. done. }
        rewrite Hyr in *. pose proof (no2star_showN (Z.to_N (- y))) as Hs6.
        repeat skip_step. rewrite <- (app_assoc [45]).
        rewrite (field_not_here _ _ _ _ _ 45) by first [reflexivity | discriminate].
        split_id (doi pub) Ed Hdoi d; split_id (pmid pub) Ep Hpmid p; to_end.
  - cbn [yearOrNA] in *. repeat skip_step.
    rewrite (field_not_here _ _ _ _ _ 78) by first [reflexivity | discriminate].
    split_id (doi pub) Ed Hdoi d; split_id (pmid pub) Ep Hpmid p; to_end.
Qed.

End Body.

Lemma trim_lineText v : lineText v → trim v = v.
Proof.
  intros (Hne & _ & Hh & Hl & _).
  destruct v as [|c v]; [done|].
  destruct (last (c :: v)) as [d|] eqn:E.
  - apply (trim_id _ c d); auto.
  - by apply last_None in E.
Qed.

Lemma trim_idText v : idText v → trim v = v.
Proof.
  intros (Hne & Hall & _).
  assert (Hws : ∀ c, c ∈ v → is_ws c = false).
  { intros c Hc. rewrite Forall_forall in Hall. specialize (Hall c Hc).
    unfold not_ws in Hall. by destruct (is_ws c). }
  destruct v as [|c v]; [done|].
  destruct (last (c :: v)) as [d|] eqn:E.
  - apply (trim_id _ c d); [done | apply Hws; by left | done |].
    apply Hws. by apply last_Some_elem_of.
  - by apply last_None in E.
Qed.

End RoundTrip.

Lemma group_1 v : group 1 [v] = v.
Proof. reflexivity. Qed.

Lemma parseInt_showNumber y : (0 < y)%Z → parseInt (showNumber y) = y.
Proof.
  intros Hy. unfold showNumber. destruct (Z.ltb_spec y 0); [lia|].
  rewrite parseInt_showN. lia.
Qed.

(** C1, as the code has it.  For a record whose title is a [lineText],
    whose authors and journal are absent, empty or [lineText]s, whose year
    is absent or an integer of magnitude below 2^53 (where numbers are
    exact), and whose doi and pmid are absent, empty or [idText]s, parsing
    the rendered body gives back the title, the doi and the pmid (an empty
    doi or pmid as an absent one), the year when it is positive and no
    year otherwise, and the authors and the journal when they are present
    and not empty, the placeholder N/A otherwise.  So a record with
    authors, a journal and a positive or absent year comes back as it
    went in. *)
Theorem render_parse_round_trip (pub : PublicationRecord) :
  lineText (title pub) →
  optLine (authors pub) →
  optLine (Some (journal pub)) →
  match year pub with Some y => (- 2 ^ 53 < y < 2 ^ 53)%Z | None => True end →
  optId (doi pub) → optId (pmid pub) →
  let parsed := Approve.parseIssueBody (Fetch.generateIssueBody pub) in
  parsed
  = {| d_title := title pub;
       d_authors := orElse (authors pub) (js "N/A");
       d_journal := orElse (Some (journal pub)) (js "N/A");
       d_year := match year pub with
                 | Some y => if (0 <? y)%Z then Some y else None
                 | None => None
                 end;
       d_doi := if truthy (doi pub) then doi pub else None;
       d_pmid := if truthy (pmid pub) then pmid pub else None |}
  ∧ (truthy (authors pub) = true → journal pub ≠ [] →
     match year pub with Some y => (0 < y)%Z | None => True end →
     parsed = expectedDetails pub).
Proof.
  intros Ht Ha Hj Hy Hd Hp parsed.
  apply optLine_orElse in Ha, Hj.
  assert (Hparsed : parsed
    = {| d_title := title pub;
         d_authors := orElse (authors pub) (js "N/A");
         d_journal := orElse (Some (journal pub)) (js "N/A");
         d_year := match year pub with
                   | Some y => if (0 <? y)%Z then Some y else None
                   | None => None
                   end;
         d_doi := if truthy (doi pub) then doi pub else None;
         d_pmid := if truthy (pmid pub) then pmid pub else None |}).
  { unfold parsed. rewrite generateIssueBody_eq. unfold Approve.parseIssueBody.
    rewrite (rendered_title pub), (rendered_authors pub),
      (rendered_journal pub), (rendered_doi pub), (rendered_pmid pub),
      (rendered_year pub); try done.
    destruct (year pub) as [y|]; [destruct (Z.ltb_spec 0 y)|];
      destruct (truthy (doi pub)) eqn:Ed;
      destruct (truthy (pmid pub)) eqn:Ep;
      try destruct (optId_truthy _ Hd Ed) as (d & -> & Hdv);
      try destruct (optId_truthy _ Hp Ep) as (p & -> & Hpv);
      cbn [Fetch.template]; rewrite !group_1;
      rewrite !trim_lineText by done; rewrite ?trim_idText by done;
      rewrite ?parseInt_showNumber by lia; reflexivity. }
  split; [done|].
  intros Hau Hjo Hpos. rewrite Hparsed. unfold expectedDetails.
  apply truthy_Some in Hau as (a & -> & Hne). rewrite !orElse_Some by done.
  f_equal. destruct (year pub) as [y|]; [|done].
  by destruct (Z.ltb_spec 0 y); [|lia].
Qed.

Ltac concrete_text :=
  repeat split;
  first
    [ discriminate
    | reflexivity
    | (apply (bool_decide_unpack _); vm_compute; exact I)
    | (let c := fresh in let H := fresh in
       intros c H; vm_compute in H; injection H as <-; reflexivity) ].

Lemma render_parse_round_trip_witness :
  let pub := {| title := js "Foo * bar"; authors := None; journal := [];
                year := Some 2020%Z; doi := Some (js "10.5/y"); pmid := None;
                source := orcid |} in
  Approve.parseIssueBody (Fetch.generateIssueBody pub)
  = {| d_title := js "Foo * bar"; d_authors := js "N/A";
       d_journal := js "N/A"; d_year := Some 2020%Z;
       d_doi := Some (js "10.5/y"); d_pmid := None |}.
Proof.
  intros pub.
  destruct (render_parse_round_trip pub) as [H _];
    [ concrete_text | exact I | exact I | simpl; lia | concrete_text | exact I
    | exact H ].
Defined.

(** C1, as stated, fails on a record as ORCID yields them, without
    authors: the body shows the placeholder N/A, and the parser returns
    that as the authors. *)
Lemma round_trip_loses_absent_authors :
  let pub := {| title := js "Foo"; authors := None; journal := js "Nature";
                year := Some 2020%Z; doi := Some (js "10.5/y"); pmid := None;
                source := orcid |} in
  d_authors (Approve.parseIssueBody (Fetch.generateIssueBody pub)) = js "N/A"
  ∧ d_authors (expectedDetails pub) = []
  ∧ Approve.parseIssueBody (Fetch.generateIssueBody pub) ≠ expectedDetails pub.
Proof.
  intros pub. split; [|split].
  - vm_compute. reflexivity.
  - reflexivity.
  - intros H. apply (f_equal d_authors) in H. vm_compute in H. discriminate H.
Qed.

(** * Further properties of the two scripts *)

(** ** The fetch script: titles, the matcher, the de-duplication pass,
    the run and the providers *)

Section Normalize.
Import Fetch.
Implicit Types (s t : str).

Lemma alnum_not_ws c : alnum c = true → is_ws c = false.
Proof.
  unfold alnum, is_lower, is_digit.
  rewrite orb_true_iff, !andb_true_iff, !N.leb_le. intros H.
  destruct (is_ws c) eqn:E; [|done]. unfold is_ws in E.
  rewrite !orb_true_iff, !andb_true_iff, !N.eqb_eq, !N.leb_le in E. lia.
Qed.

Lemma trim_no_ws s : Forall (λ c, is_ws c = false) s → trim s = s.
Proof.
  intros H. destruct s as [|c s]; [done|].
  destruct (last (c :: s)) as [d|] eqn:E; [|by apply last_None in E].
  apply (trim_id _ c d); [done | | done |].
  - by apply Forall_cons in H as [? _].
  - rewrite Forall_forall in H. apply H. by apply last_Some_elem_of.
Qed.

Lemma filter_alnum_Forall s :
  Forall (λ c, alnum c = true) (filter (λ c, is_lower c || is_digit c) s).
Proof.
  apply Forall_forall. intros c [Hc _]%list_elem_of_filter.
  unfold alnum. by destruct (is_lower c || is_digit c).
Qed.

Lemma normalizeTitle_filter s :
  normalizeTitle s = filter (λ c, is_lower c || is_digit c) (toLowerCase s).
Proof.
  unfold normalizeTitle. apply trim_no_ws.
  eapply Forall_impl; [apply filter_alnum_Forall|]. apply alnum_not_ws.
Qed.

Lemma lowerCU_alnum c : alnum c = true → lowerCU c = [c].
Proof.
  unfold alnum, is_lower, is_digit, lowerCU, is_upper.
  rewrite orb_true_iff, !andb_true_iff, !N.leb_le. intros H.
  assert (H1 : (65 <=? c) && (c <=? 90) = false).
  { apply andb_false_iff. rewrite !N.leb_gt. lia. }
  assert (H2 : (c =? 304) = false) by (apply N.eqb_neq; lia).
  assert (H3 : (c =? 8490) = false) by (apply N.eqb_neq; lia).
  by rewrite H1, H2, H3.
Qed.

(** X1.  [normalizeTitle] returns lower-case letters and digits only. *)
Theorem normalizeTitle_alnum s :
  Forall (λ c, is_lower c || is_digit c = true) (normalizeTitle s).
Proof. rewrite normalizeTitle_filter. apply filter_alnum_Forall. Qed.

Lemma normalizeTitle_fixed s :
  Forall (λ c, alnum c = true) s → normalizeTitle s = s.
Proof.
  intros H. rewrite normalizeTitle_filter. unfold toLowerCase.
  induction H as [|c s Hc Hs IH]; [done|].
  rewrite bind_cons, (lowerCU_alnum c Hc). cbn [app].
  unfold str in *.
  rewrite filter_cons_True by (unfold alnum in Hc; by rewrite Hc).
  by rewrite IH.
Qed.

(** X2.  Normalising a normalised title changes nothing. *)
Theorem normalizeTitle_idempotent s :
  normalizeTitle (normalizeTitle s) = normalizeTitle s.
Proof. apply normalizeTitle_fixed, normalizeTitle_alnum. Qed.

(** X3.  [normalizeTitle] works code unit by code unit: the normal form of a
    concatenation is the concatenation of the normal forms. *)
Theorem normalizeTitle_app s t :
  normalizeTitle (s ++ t) = normalizeTitle s ++ normalizeTitle t.
Proof.
  rewrite !normalizeTitle_filter. unfold toLowerCase, str.
  by rewrite bind_app, filter_app.
Qed.

End Normalize.

Section MatcherProps.
Import Fetch.

(** X4.  The test of [publicationExists] does not depend on which of two
    records is the fetched one and which the stored one. *)
Theorem matchesExisting_symmetric (a b : PublicationRecord) :
  matchesExisting a (asCurated b) = matchesExisting b (asCurated a).
Proof.
  unfold matchesExisting, asCurated, str_eqb; simpl.
  rewrite (andb_comm (truthy (doi a))), (andb_comm (truthy (pmid a))).
  rewrite (bool_decide_ext (doi a = doi b) (doi b = doi a)) by done.
  rewrite (bool_decide_ext (pmid a = pmid b) (pmid b = pmid a)) by done.
  rewrite (bool_decide_ext (normalizeTitle (title a) = normalizeTitle (title b))
             (normalizeTitle (title b) = normalizeTitle (title a))) by done.
  reflexivity.
Qed.

Lemma existsLoop_true pub (l : list CuratedPublication) :
  existsLoop pub l = true ↔ ∃ e, e ∈ l ∧ matchesExisting pub e = true.
Proof.
  split.
  - induction l as [|x l IH]; simpl; [done|].
    destruct (matchesExisting pub x) eqn:E.
    + intros _. exists x. split; [by left | done].
    + intros (e & He & Hm)%IH. exists e. split; [by right | done].
  - intros (e & He & Hm). by apply (existsLoop_elem pub l e).
Qed.

(** X5.  [publicationExists] holds exactly when some entry of [approved],
    [pending] or [rejected] passes the test; the order of the lists and of
    their entries is of no account. *)
Theorem publicationExists_iff (pub : PublicationRecord) (data : Dataset) :
  publicationExists pub data = true ↔
  ∃ e, (e ∈ approved data ∨ e ∈ pending data ∨ e ∈ rejected data)
       ∧ matchesExisting pub e = true.
Proof.
  unfold publicationExists. rewrite existsLoop_true.
  split; intros (e & He & Hm); exists e; (split; [|done]).
  - by rewrite !elem_of_app in He.
  - by rewrite !elem_of_app.
Qed.

(** X6.  A record whose normalised title is that of a stored entry exists,
    whatever the identifiers of the two are. *)
Theorem same_title_exists (pub : PublicationRecord) (data : Dataset)
    (e : CuratedPublication) :
  e ∈ approved data ∨ e ∈ pending data ∨ e ∈ rejected data →
  normalizeTitle (title pub) = normalizeTitle (c_title e) →
  publicationExists pub data = true.
Proof.
  intros He Ht. apply publicationExists_iff. exists e. split; [done|].
  unfold matchesExisting, str_eqb. rewrite (bool_decide_eq_true_2 _ Ht).
  by repeat destruct (_ && _).
Qed.

End MatcherProps.

Section DedupProps.
Import Fetch.
Implicit Types (seen : gset str) (l : list PublicationRecord).

Lemma dedup_fold_cons p l seen :
  (fold_left dedupStep (p :: l) (seen, [])).2
  = if decide (dedupKey p ∈ seen) then (fold_left dedupStep l (seen, [])).2
    else p :: (fold_left dedupStep l ({[dedupKey p]} ∪ seen, [])).2.
Proof.
  simpl. unfold dedupStep at 2; simpl. case_decide; [done|].
  by rewrite dedup_fold_acc.
Qed.

Lemma dedup_fold_NoDup l : ∀ seen,
  NoDup (dedupKey <$> (fold_left dedupStep l (seen, [])).2).
Proof.
  induction l as [|p l IH]; intros seen; [constructor|].
  rewrite dedup_fold_cons. case_decide; [apply IH|].
  rewrite fmap_cons. constructor; [|apply IH].
  intros (r & Hk & Hr)%list_elem_of_fmap.
  apply dedup_fold_fresh in Hr as [_ Hr]. set_solver.
Qed.

Lemma dedup_fold_sublist l : ∀ seen,
  (fold_left dedupStep l (seen, [])).2 `sublist_of` l.
Proof.
  induction l as [|p l IH]; intros seen; [done|].
  rewrite dedup_fold_cons. case_decide.
  - by apply sublist_cons.
  - by apply sublist_skip.
Qed.

Lemma dedup_fold_covers l : ∀ seen r,
  r ∈ l →
  dedupKey r ∈ seen
  ∨ ∃ r', r' ∈ (fold_left dedupStep l (seen, [])).2 ∧ dedupKey r' = dedupKey r.
Proof.
  induction l as [|p l IH]; intros seen r Hr; [by apply elem_of_nil in Hr|].
  rewrite dedup_fold_cons. apply elem_of_cons in Hr as [-> | Hr].
  - case_decide; [by left|]. right. exists p. split; [by left | done].
  - case_decide.
    + by apply IH.
    + destruct (IH ({[dedupKey p]} ∪ seen) r Hr) as [Hin | (r' & Hr' & Hk)].
      * apply elem_of_union in Hin as [Hin | Hin]; [|by left].
        apply elem_of_singleton in Hin. right. exists p. split; [by left | done].
      * right. exists r'. split; [by right | done].
Qed.

Lemma dedup_fold_fixed l : ∀ seen,
  NoDup (dedupKey <$> l) → (∀ r, r ∈ l → dedupKey r ∉ seen) →
  (fold_left dedupStep l (seen, [])).2 = l.
Proof.
  induction l as [|p l IH]; intros seen Hnd Hseen; [done|].
  rewrite dedup_fold_cons. rewrite fmap_cons in Hnd.
  apply NoDup_cons in Hnd as [Hp Hnd].
  rewrite decide_False by (apply Hseen; by left). f_equal.
  apply IH; [done|]. intros r Hr [Hin | Hin]%elem_of_union.
  - apply elem_of_singleton in Hin. apply Hp. rewrite <- Hin.
    apply list_elem_of_fmap. by exists r.
  - apply (Hseen r); [by right | done].
Qed.

End DedupProps.

(** X7.  After the de-duplication pass no two records have the same key. *)
Theorem uniquePubs_keys_distinct (orcidPubs pubmedPubs : list PublicationRecord) :
  NoDup (Fetch.dedupKey <$> Fetch.uniquePubs orcidPubs pubmedPubs).
Proof. apply dedup_fold_NoDup. Qed.

(** X8.  The pass only drops records: what is left is the fetched list, ORCID
    first, with some records taken out and the order kept. *)
Theorem uniquePubs_sublist (orcidPubs pubmedPubs : list PublicationRecord) :
  Fetch.uniquePubs orcidPubs pubmedPubs `sublist_of` orcidPubs ++ pubmedPubs.
Proof. apply dedup_fold_sublist. Qed.

(** X9.  Every fetched record is represented: a record with its key is left. *)
Theorem uniquePubs_covers (orcidPubs pubmedPubs : list PublicationRecord)
    (r : PublicationRecord) :
  r ∈ orcidPubs ++ pubmedPubs →
  ∃ r', r' ∈ Fetch.uniquePubs orcidPubs pubmedPubs
        ∧ Fetch.dedupKey r' = Fetch.dedupKey r.
Proof.
  intros Hr. destruct (dedup_fold_covers _ ∅ r Hr) as [Hin | H]; [|done].
  by apply not_elem_of_empty in Hin.
Qed.

(** X10.  A second pass over the result drops nothing. *)
Theorem uniquePubs_idempotent (orcidPubs pubmedPubs : list PublicationRecord) :
  Fetch.uniquePubs (Fetch.uniquePubs orcidPubs pubmedPubs) []
  = Fetch.uniquePubs orcidPubs pubmedPubs.
Proof.
  unfold Fetch.uniquePubs at 1. rewrite app_nil_r.
  apply dedup_fold_fixed; [apply dedup_fold_NoDup | set_solver].
Qed.

Section NewPublications.
Import Fetch.

(** X11.  The new publications are fetched records in fetch order, and none
    of them exists in the dataset. *)
Theorem newPublications_selection (data : Dataset)
    (orcidPubs pubmedPubs : list PublicationRecord) :
  newPublications data orcidPubs pubmedPubs `sublist_of` orcidPubs ++ pubmedPubs
  ∧ Forall (λ pub, publicationExists pub data = false)
      (newPublications data orcidPubs pubmedPubs).
Proof.
  split.
  - transitivity (uniquePubs orcidPubs pubmedPubs).
    + apply sublist_filter.
    + apply dedup_fold_sublist.
  - apply Forall_forall. by intros pub [H _]%list_elem_of_filter.
Qed.

(** X12.  Against a dataset with three empty lists every unique record is
    new. *)
Theorem newPublications_empty_dataset (data : Dataset)
    (orcidPubs pubmedPubs : list PublicationRecord) :
  approved data = [] → pending data = [] → rejected data = [] →
  newPublications data orcidPubs pubmedPubs = uniquePubs orcidPubs pubmedPubs.
Proof.
  intros Ha Hp Hr. unfold newPublications.
  induction (uniquePubs orcidPubs pubmedPubs) as [|pub l IH]; [done|].
  rewrite filter_cons_True, IH; [done|].
  unfold publicationExists. by rewrite Ha, Hp, Hr.
Qed.

End NewPublications.

Section Script.
Import FetchScript.

Lemma createIssues_requests env net pubs :
  createIssues env net pubs
  = if configured env then issueRequest env <$> pubs else [].
Proof.
  unfold configured.
  induction pubs as [|pub pubs IH]; simpl; [by destruct (_ && _)|].
  rewrite IH. unfold createGitHubIssue.
  destruct (truthy (GITHUB_TOKEN env)), (truthy (GITHUB_REPOSITORY env)); simpl;
    try done.
  by destruct (issueAnswer net _ _).
Qed.

Lemma fetchOrcid_requests net : (fetchOrcidPublications net).2 = [OrcidWorks].
Proof. unfold fetchOrcidPublications. by destruct (orcidAnswer net). Qed.

Lemma fetchPubmed_requests env net :
  Forall (λ r, isCreateIssue r = false) (fetchPubmedPublications env net).2.
Proof.
  unfold fetchPubmedPublications.
  destruct (searchAnswer net) as [| |[[|x l]|]]; simpl;
    try destruct (summaryAnswer net _); repeat constructor.
Qed.

Lemma main_readable env net data :
  main env net (Some data)
  = let newPublications :=
      Fetch.newPublications data (fetchOrcidPublications net).1
        (fetchPubmedPublications env net).1 in
    {| outcome := Approve.Completed;
       requests := OrcidWorks :: (fetchPubmedPublications env net).2
                   ++ (if configured env then issueRequest env <$> newPublications
                       else []);
       new_count := match newPublications with
                    | [] => None
                    | _ => Some (length newPublications)
                    end |}.
Proof.
  unfold main. pose proof (fetchOrcid_requests net) as Ho.
  destruct (fetchOrcidPublications net) as [opubs oreqs].
  destruct (fetchPubmedPublications env net) as [ppubs preqs].
  simpl in *. subst oreqs.
  destruct (Fetch.newPublications data opubs ppubs) as [|pub l] eqn:E.
  - simpl. f_equal. by destruct (configured env); rewrite app_nil_r.
  - rewrite createIssues_requests. reflexivity.
Qed.

End Script.

(** X14.  The run asks for one issue per new publication, in their order and
    whatever the tracker answered to the earlier ones, or for none when
    the token or the repository is not set; [new_count] is printed only
    when there is a new publication, and counts the new publications, not
    the issues. *)
Theorem main_issue_requests (env : FetchScript.Env) (net : FetchScript.Network)
    (data : Dataset) :
  let newPublications :=
    Fetch.newPublications data (FetchScript.fetchOrcidPublications net).1
      (FetchScript.fetchPubmedPublications env net).1 in
  filter (λ r, isCreateIssue r = true)
    (FetchScript.requests (FetchScript.main env net (Some data)))
  = (if configured env then issueRequest env <$> newPublications else [])
  ∧ FetchScript.new_count (FetchScript.main env net (Some data))
    = match newPublications with
      | [] => None
      | _ => Some (length newPublications)
      end.
Proof.
  intros newPublications. rewrite main_readable. fold newPublications.
  split; [|reflexivity].
  cbn [FetchScript.requests].
  rewrite filter_cons_False by (simpl; congruence).
  rewrite filter_app.
  assert (H1 : filter (λ r, isCreateIssue r = true)
                 (FetchScript.fetchPubmedPublications env net).2 = []).
  { pose proof (fetchPubmed_requests env net) as H.
    induction H as [|r l Hr _ IH]; [done|].
    rewrite filter_cons_False by congruence. done. }
  rewrite H1. cbn [app].
  destruct (configured env); [|done].
  induction newPublications as [|pub l IH]; [done|].
  rewrite fmap_cons, filter_cons_True by done. by rewrite IH.
Qed.

(** X15.  Every issue the run asks for is the rendering of a fetched record
    that does not exist in the dataset. *)
Theorem main_never_proposes_existing (env : FetchScript.Env)
    (net : FetchScript.Network) (data : Dataset)
    (repo token issueTitle issueBody : str) (labels : list str) :
  FetchScript.CreateIssue repo token issueTitle issueBody labels
    ∈ FetchScript.requests (FetchScript.main env net (Some data)) →
  ∃ pub,
    pub ∈ (FetchScript.fetchOrcidPublications net).1
          ++ (FetchScript.fetchPubmedPublications env net).1
    ∧ issueTitle = FetchScript.issueTitle pub
    ∧ issueBody = Fetch.generateIssueBody pub
    ∧ Fetch.publicationExists pub data = false.
Proof.
  rewrite main_readable. cbn [FetchScript.requests].
  intros [H | H]%elem_of_cons; [done|].
  apply elem_of_app in H as [H | H].
  - pose proof (fetchPubmed_requests env net) as Hall.
    rewrite Forall_forall in Hall. by apply Hall in H.
  - destruct (configured env); [|by apply elem_of_nil in H].
    apply list_elem_of_fmap in H as (pub & Heq & Hpub).
    injection Heq as _ _ -> -> _. exists pub.
    apply list_elem_of_filter in Hpub as [Hex Hpub].
    split; [|done].
    eapply elem_of_sublist; [exact Hpub|]. apply dedup_fold_sublist.
Qed.

(** X16.  The PubMed summary is requested only after a search that answered
    with a list of ids that is not empty, and for those ids. *)
Theorem pubmed_summary_request (env : FetchScript.Env)
    (net : FetchScript.Network) (ids : list str) (apiKey : str) :
  FetchScript.PubmedSummary ids apiKey
    ∈ (FetchScript.fetchPubmedPublications env net).2 →
  FetchScript.searchAnswer net = FetchScript.Ok (Some ids) ∧ ids ≠ [].
Proof.
  unfold FetchScript.fetchPubmedPublications.
  destruct (FetchScript.searchAnswer net) as [| |[[|x l]|]]; simpl;
    try (intros H; apply list_elem_of_singleton in H; discriminate).
  assert (H : FetchScript.PubmedSummary ids apiKey
      ∈ [FetchScript.PubmedSearch (orElse (FetchScript.NCBI_API_KEY env) []);
         FetchScript.PubmedSummary (x :: l)
           (orElse (FetchScript.NCBI_API_KEY env) [])]
      → FetchScript.Ok (Some (x :: l)) = FetchScript.Ok (Some ids) ∧ ids ≠ []).
  { intros [H | H]%elem_of_cons; [done|].
    apply list_elem_of_singleton in H. by injection H as -> _. }
  by destruct (FetchScript.summaryAnswer net (x :: l)).
Qed.

Section Providers.
Import FetchScript.

Lemma externalIds_fold ids : ∀ st,
  (fold_left externalIdStep ids st).1
  = match last (ext_value <$> filter (λ e, ext_type e = js "doi") ids) with
    | Some v => Some v
    | None => st.1
    end
  ∧ (fold_left externalIdStep ids st).2
  = match last (ext_value <$> filter (λ e, ext_type e = js "pmid") ids) with
    | Some v => Some v
    | None => st.2
    end.
Proof.
  induction ids as [|e ids IH]; intros st; [done|].
  cbn [fold_left]. destruct (IH (externalIdStep st e)) as [-> ->].
  unfold externalIdStep, str_eqb; cbn [fst snd].
  rewrite !filter_cons.
  split; case_bool_decide; case_decide; try done;
    rewrite fmap_cons, last_cons; by repeat case_match.
Qed.

End Providers.

(** X17.  In an ORCID work summary the last external id of type doi gives
    the doi, and the last of type pmid the pmid: the loop has no break. *)
Theorem orcid_last_identifier_wins (workSummary : FetchScript.WorkSummary) :
  doi (FetchScript.orcidRecord workSummary)
  = last (FetchScript.ext_value <$>
          filter (λ e, FetchScript.ext_type e = js "doi")
            (FetchScript.ws_external_ids workSummary))
  ∧ pmid (FetchScript.orcidRecord workSummary)
  = last (FetchScript.ext_value <$>
          filter (λ e, FetchScript.ext_type e = js "pmid")
            (FetchScript.ws_external_ids workSummary)).
Proof.
  unfold FetchScript.orcidRecord; cbn [doi pmid].
  destruct (externalIds_fold (FetchScript.ws_external_ids workSummary) (None, None))
    as [-> ->].
  split; by destruct (last _).
Qed.

(** X18.  In a PubMed article the first article id of type doi gives the
    doi. *)
Theorem pubmed_first_doi_wins (pmid0 : str) (article : FetchScript.Article) :
  doi (FetchScript.pubmedRecord pmid0 article)
  = head (FetchScript.idvalue <$>
          filter (λ i, FetchScript.idtype i = js "doi")
            (default [] (FetchScript.a_articleids article))).
Proof.
  unfold FetchScript.pubmedRecord; cbn [doi].
  induction (default [] (FetchScript.a_articleids article)) as [|i l IH];
    [done|].
  cbn [FetchScript.firstDoi]. unfold str_eqb. rewrite filter_cons.
  case_bool_decide; case_decide; done.
Qed.


(** X20.  The ORCID records are those of the first work summary of each
    group that has one, in the order of the groups, without authors and
    with the source orcid. *)
Theorem orcid_records_shape (groups : list (list FetchScript.WorkSummary)) :
  FetchScript.orcidRecords groups
  = FetchScript.orcidRecord <$> omap head groups
  ∧ Forall (λ r, source r = orcid ∧ authors r = None)
      (FetchScript.orcidRecords groups).
Proof.
  induction groups as [|g l [IH1 IH2]]; [by split|].
  cbn [FetchScript.orcidRecords omap list_omap]. destruct (head g) as [ws|]; [|by split].
  split.
  - rewrite fmap_cons. by f_equal.
  - constructor; [by split | done].
Qed.

(** ** Commands and request bodies *)

Section CommandShape.
Import Approve.

Lemma canon_colon c : canon c = 58 → c = 58.
Proof.
  unfold canon, is_lower.
  destruct (97 <=? c) eqn:E1; destruct (c <=? 122) eqn:E2; simpl; try done.
  apply N.leb_le in E1. lia.
Qed.

Lemma canon_not_colon c k : canon c = k → k ≠ 58 → (c =? 58) = false.
Proof.
  intros H Hk. apply N.eqb_neq. intros ->. by apply Hk.
Qed.

Lemma idType_of_match idt :
  canon <$> idt = canon <$> js "doi:" ∨ canon <$> idt = canon <$> js "pmid:" →
  canon <$> replaceFirst 58 idt = canon <$> js "doi"
  ∨ canon <$> replaceFirst 58 idt = canon <$> js "pmid".
Proof.
  intros [H | H]; [left | right].
  - destruct idt as [|c1 [|c2 [|c3 [|c4 [|c5 idt]]]]]; try done.
    rewrite !fmap_cons in H. injection H as H1 H2 H3 H4.
    apply canon_colon in H4 as ->.
    cbn [replaceFirst].
    rewrite (canon_not_colon c1 _ H1), (canon_not_colon c2 _ H2),
      (canon_not_colon c3 _ H3) by done.
    rewrite !fmap_cons, H1, H2, H3. done.
  - destruct idt as [|c1 [|c2 [|c3 [|c4 [|c5 [|c6 idt]]]]]]; try done.
    rewrite !fmap_cons in H. injection H as H1 H2 H3 H4 H5.
    apply canon_colon in H5 as ->.
    cbn [replaceFirst].
    rewrite (canon_not_colon c1 _ H1), (canon_not_colon c2 _ H2),
      (canon_not_colon c3 _ H3), (canon_not_colon c4 _ H4) by done.
    rewrite !fmap_cons, H1, H2, H3, H4. done.
Qed.

Lemma jsmatch_command_shape keyword comment m :
  jsmatch true (commandRegex keyword) comment = Some m →
  ∃ idt tok, m = [idt; tok]
    ∧ (canon <$> idt = canon <$> js "doi:" ∨ canon <$> idt = canon <$> js "pmid:")
    ∧ tok ≠ [] ∧ Forall (λ c, not_ws c = true) tok.
Proof.
  intros (pre & t & _ & Hm & _)%jsmatch_Some.
  apply commandAt_match in Hm as (idt & tok & -> & Hat).
  destruct Hat as (kw & ws & rest & _ & _ & _ & _ & Hidt & Htok & Hall & _).
  by exists idt, tok.
Qed.

End CommandShape.

(** X21.  A decision never has an empty value: the value is a run of code
    units that are not white space, and the type is doi or pmid in some
    letter case. *)
Theorem parseCommand_wellformed (comment : str) (command : Approve.Command) :
  Approve.parseCommand comment = Some command →
  Approve.idValue command ≠ []
  ∧ Forall (λ c, not_ws c = true) (Approve.idValue command)
  ∧ (canon <$> Approve.idType command = canon <$> js "doi"
     ∨ canon <$> Approve.idType command = canon <$> js "pmid").
Proof.
  unfold Approve.parseCommand.
  destruct (jsmatch true (Approve.commandRegex (js "/approve")) comment)
    as [m|] eqn:Ea.
  - apply jsmatch_command_shape in Ea as (idt & tok & -> & Hidt & Htok & Hall).
    intros [= <-]. cbn. repeat split; try done. by apply idType_of_match.
  - destruct (jsmatch true (Approve.commandRegex (js "/reject")) comment)
      as [m|] eqn:Er; [|done].
    apply jsmatch_command_shape in Er as (idt & tok & -> & Hidt & Htok & Hall).
    intros [= <-]. cbn. repeat split; try done. by apply idType_of_match.
Qed.

Section Echo.
Import Approve.

Lemma no_ws_no_command keyword s :
  Forall (λ c, not_ws c = true) s → jsmatch true (commandRegex keyword) s = None.
Proof.
  intros Hs. apply jsmatch_None. intros pre t ->.
  rewrite commandRegex_at.
  destruct (stripLit true keyword t) as [[|x s1]|] eqn:E; try done.
  apply stripLit_ci_Some in E as (kw & -> & _).
  rewrite !Forall_app in Hs. destruct Hs as (_ & _ & Hx).
  apply Forall_cons in Hx as [Hx _]. unfold not_ws in Hx.
  by destruct (is_ws x).
Qed.

Lemma jsmatch_cons_None ci r x s :
  match_at ci r (x :: s) = None → jsmatch ci r (x :: s) = jsmatch ci r s.
Proof. intros H. cbn [jsmatch]. by rewrite H. Qed.

Lemma command_here keyword idt tok :
  canon <$> idt = canon <$> js "doi:" ∨ canon <$> idt = canon <$> js "pmid:" →
  tok ≠ [] → Forall (λ c, not_ws c = true) tok →
  jsmatch true (commandRegex keyword) ((keyword ++ [32]) ++ idt ++ tok)
  = Some [idt; tok].
Proof.
  intros Hidt Htok Hall. apply jsmatch_here, commandAt_match.
  exists idt, tok. split; [done|].
  exists keyword, [32], []. rewrite app_nil_r, <- app_assoc.
  repeat split; try done. by constructor.
Qed.

Lemma echo_parses (kind v : str) :
  kind = js "doi" ∨ kind = js "pmid" →
  v ≠ [] → Forall (λ c, not_ws c = true) v →
  parseCommand (js "/approve " ++ (kind ++ js ":") ++ v)
  = Some {| action := approve; idType := kind; idValue := v |}
  ∧ parseCommand (js "/reject " ++ (kind ++ js ":") ++ v)
    = Some {| action := reject; idType := kind; idValue := v |}.
Proof.
  intros Hk Hv Hall.
  assert (Hidt : canon <$> (kind ++ js ":") = canon <$> js "doi:"
                 ∨ canon <$> (kind ++ js ":") = canon <$> js "pmid:").
  { destruct Hk as [-> | ->]; [by left | by right]. }
  assert (Hty : replaceFirst 58 (kind ++ js ":") = kind).
  { by destruct Hk as [-> | ->]. }
  unfold parseCommand. split.
  - change (js "/approve ") with (js "/approve" ++ [32]).
    rewrite (command_here _ _ _ Hidt Hv Hall). cbv beta iota.
    change (group 1 [kind ++ js ":"; v]) with (kind ++ js ":").
    change (group 2 [kind ++ js ":"; v]) with v.
    by rewrite Hty.
  - assert (Hno : jsmatch true (commandRegex (js "/approve"))
                    (js "/reject " ++ (kind ++ js ":") ++ v) = None).
    { change (js "/reject ") with [47; 114; 101; 106; 101; 99; 116; 32].
      cbn [app].
      do 8 (rewrite jsmatch_cons_None
              by (apply commandRegex_needs_keyword; reflexivity)).
      apply no_ws_no_command. apply Forall_app. split; [|done].
      destruct Hk as [-> | ->]; repeat constructor. }
    rewrite Hno.
    change (js "/reject ") with (js "/reject" ++ [32]).
    rewrite (command_here _ _ _ Hidt Hv Hall). cbv beta iota.
    change (group 1 [kind ++ js ":"; v]) with (kind ++ js ":").
    change (group 2 [kind ++ js ":"; v]) with v.
    by rewrite Hty.
Qed.

End Echo.

(** X22.  The two command lines of a rendered body, sent back as comments,
    parse to the approve and the reject decision on the identifier of the
    record: its doi, or its pmid when it has no doi, provided the
    identifier holds no white space. *)
Theorem command_templates_parse_back (pub : PublicationRecord) (kind v : str) :
  (doi pub = Some v ∧ kind = js "doi")
  ∨ (truthy (doi pub) = false ∧ pmid pub = Some v ∧ kind = js "pmid") →
  v ≠ [] → Forall (λ c, not_ws c = true) v →
  Approve.parseCommand (js "/approve " ++ Fetch.commandId pub)
  = Some {| Approve.action := Approve.approve; Approve.idType := kind;
            Approve.idValue := v |}
  ∧ Approve.parseCommand (js "/reject " ++ Fetch.commandId pub)
    = Some {| Approve.action := Approve.reject; Approve.idType := kind;
              Approve.idValue := v |}.
Proof.
  intros Hid Hv Hall.
  assert (Hc : Fetch.commandId pub = (kind ++ js ":") ++ v).
  { unfold Fetch.commandId.
    destruct Hid as [[Hd ->] | (Hd & Hp & ->)].
    - rewrite Hd. by destruct v.
    - rewrite Hd, Hp. by destruct v. }
  rewrite Hc. apply echo_parses; [|done|done].
  destruct Hid as [[_ ->] | (_ & _ & ->)]; [by left | by right].
Qed.

Section BodyParse.
Import Fetch Approve.

Lemma jsmatch_nil_field l p : l ≠ [] → jsmatch false (fieldRegex l p) [] = None.
Proof. intros Hl. cbn [jsmatch]. rewrite fieldRegex_at. by destruct l. Qed.

Lemma jsmatch_no_label l p body :
  take 2 l = [42; 42] → no2star body = true →
  jsmatch false (fieldRegex l p) body = None.
Proof.
  intros Hl Hb. rewrite <- (app_nil_r body).
  rewrite jsmatch_skip_nostars by done.
  apply jsmatch_nil_field. by destruct l.
Qed.

Lemma trimStart_afterRun s : trimStart s = afterRun is_ws s.
Proof. induction s as [|c s IH]; simpl; [done|]. by rewrite IH. Qed.

Lemma afterRun_app p v s :
  Exists (λ c, p c = false) v → afterRun p (v ++ s) = afterRun p v ++ s.
Proof.
  induction 1 as [c v Hc | c v _ IH]; simpl.
  - by rewrite Hc.
  - destruct (p c); [done | done].
Qed.

Lemma afterRun_Exists p v :
  Exists (λ c, p c = false) v →
  ∃ c v', afterRun p v = c :: v' ∧ p c = false.
Proof.
  induction 1 as [c v Hc | c v _ IH]; simpl.
  - rewrite Hc. by exists c, v.
  - destruct (p c) eqn:E; [done|]. by exists c, v.
Qed.

Lemma afterRun_suffix p v : ∃ w, v = w ++ afterRun p v.
Proof. exists (run p v). apply run_afterRun. Qed.

Lemma field_found_ws l lsp v rest :
  lsp = l ++ [32] → oneLine v →
  jsmatch false (fieldRegex l dot) (lsp ++ v ++ 10 :: rest)
  = Some [afterRun is_ws v].
Proof.
  intros -> [Hdot Hex]. apply jsmatch_here. rewrite fieldRegex_at.
  rewrite <- app_assoc, stripLit_app. apply star_greedy.
  cbn [app afterRun]. change (is_ws 32) with true. cbv iota.
  rewrite (afterRun_app _ _ _ Hex), plus_group.
  destruct (afterRun_Exists _ _ Hex) as (c & v' & E & Hc).
  assert (Hd : Forall (λ c, dot c = true) (afterRun is_ws v)).
  { destruct (afterRun_suffix is_ws v) as [w Hw]. rewrite Hw in Hdot.
    by apply Forall_app in Hdot as [_ ?]. }
  destruct (run_app dot (afterRun is_ws v) (10 :: rest) Hd) as [-> _].
  - by intros ? [= <-].
  - by rewrite E.
Qed.

Lemma trim_afterRun v : trim (afterRun is_ws v) = trim v.
Proof.
  unfold trim. rewrite !trimStart_afterRun. f_equal.
  induction v as [|c v IH]; [done|]. simpl.
  destruct (is_ws c) eqn:E; [done|]. simpl. by rewrite E.
Qed.

Lemma parsed_title pub :
  oneLine (title pub) →
  d_title (parseIssueBody (generateIssueBody pub)) = trim (title pub).
Proof.
  intros Ht. rewrite generateIssueBody_eq. unfold parseIssueBody; cbn [d_title].
  unfold renderedText.
  do 3 (rewrite jsmatch_skip_text by (vm_compute; reflexivity)).
  change (nl ++ ?x) with (10 :: x) at 1.
  rewrite (field_found_ws (js "**Title:**")) by done.
  change (group 1 [?x]) with x. apply trim_afterRun.
Qed.

End BodyParse.

(** X23.  A body without two asterisks in a row has no labelled field:
    every field comes back empty or absent. *)
Theorem parseIssueBody_without_labels (body : str) :
  no2star body = true →
  Approve.parseIssueBody body
  = {| d_title := []; d_authors := []; d_journal := []; d_year := None;
       d_doi := None; d_pmid := None |}.
Proof.
  intros Hb. unfold Approve.parseIssueBody.
  by rewrite !jsmatch_no_label.
Qed.

(** X24.  Whatever the other fields of a record hold, the title parsed from
    its rendered body is its title trimmed, when the title has no line
    terminator and is not blank. *)
Theorem parsed_title_is_trimmed (pub : PublicationRecord) :
  oneLine (title pub) →
  d_title (Approve.parseIssueBody (Fetch.generateIssueBody pub))
  = trim (title pub).
Proof. apply parsed_title. Qed.

Section Suppression.
Import Fetch.

Lemma normalizeTitle_ws w :
  Forall (λ c, is_ws c = true) w → normalizeTitle w = [].
Proof.
  intros H. rewrite normalizeTitle_filter. unfold toLowerCase, str.
  induction H as [|c w Hc _ IH]; [done|].
  assert (Hl : lowerCU c = [c]).
  { unfold lowerCU, is_upper. unfold is_ws in Hc.
    rewrite !orb_true_iff, !andb_true_iff, !N.eqb_eq, !N.leb_le in Hc.
    assert (H1 : (65 <=? c) && (c <=? 90) = false).
    { apply andb_false_iff. rewrite !N.leb_gt. lia. }
    assert (H2 : (c =? 304) = false) by (apply N.eqb_neq; lia).
    assert (H3 : (c =? 8490) = false) by (apply N.eqb_neq; lia).
    by rewrite H1, H2, H3. }
  rewrite bind_cons, Hl. cbn [app].
  rewrite filter_cons_False; [done|].
  intros Ha. apply Is_true_true in Ha. apply alnum_not_ws in Ha. congruence.
Qed.

Lemma trimEnd_split s :
  ∃ w, s = trimEnd s ++ w ∧ Forall (λ c, is_ws c = true) w.
Proof.
  induction s as [|c s (w & Hs & Hw)]; [by exists []|].
  cbn [trimEnd]. destruct (trimEnd s) as [|x t] eqn:E.
  - simpl in Hs. subst w. destruct (is_ws c) eqn:Ec.
    + exists (c :: s). split; [done | by constructor].
    + by exists s.
  - exists w. split; [|done]. by rewrite Hs at 1.
Qed.

Lemma normalizeTitle_trim s : normalizeTitle (trim s) = normalizeTitle s.
Proof.
  unfold trim. destruct (trimEnd_split (trimStart s)) as (w & Hs & Hw).
  rewrite (run_afterRun is_ws s) at 2. rewrite <- trimStart_afterRun.
  rewrite normalizeTitle_app, (normalizeTitle_ws (run is_ws s))
    by apply run_Forall.
  rewrite Hs at 2. rewrite normalizeTitle_app, (normalizeTitle_ws w) by done.
  by rewrite app_nil_r.
Qed.

Lemma matches_by_title pub e :
  normalizeTitle (title pub) = normalizeTitle (c_title e) →
  matchesExisting pub e = true.
Proof.
  intros Ht. unfold matchesExisting, str_eqb.
  rewrite (bool_decide_eq_true_2 _ Ht). by repeat destruct (_ && _).
Qed.

End Suppression.

(** X26.  Applying the same comment to the same body twice stores the entry
    twice: nothing is compared with what the list holds. *)
Theorem decision_applied_twice (env1 env2 : Approve.Env) (w : Approve.World)
    (data : Dataset) (command : Approve.Command) :
  Approve.file w = Some data →
  Approve.ISSUE_COMMENT env2 = Approve.ISSUE_COMMENT env1 →
  Approve.ISSUE_BODY env2 = Approve.ISSUE_BODY env1 →
  Approve.parseCommand (orElse (Approve.ISSUE_COMMENT env1) []) = Some command →
  let pubDetails := Approve.parseIssueBody (orElse (Approve.ISSUE_BODY env1) []) in
  let entry1 := Approve.buildPublication env1 pubDetails in
  let entry2 := Approve.buildPublication env2 pubDetails in
  ∃ data2,
    Approve.file (Approve.main env2 (Approve.main env1 w).2).2 = Some data2
    ∧ match Approve.action command with
      | Approve.approve => approved data2 = approved data ++ [entry1; entry2]
      | Approve.reject => rejected data2 = rejected data ++ [entry1; entry2]
      end.
Proof.
  intros Hf Hc2 Hb2 Hc pubDetails entry1 entry2.
  rewrite (main_applies env1 w data command Hf Hc).
  cbn [snd]. unfold Approve.savePublications.
  erewrite (main_applies env2 _ _ command); [|reflexivity | by rewrite Hc2].
  rewrite Hb2. fold pubDetails entry1 entry2.
  eexists. split; [reflexivity|].
  unfold Approve.applyDecision.
  destruct (Approve.action command); simpl; by rewrite <- app_assoc.
Qed.

(** X27.  Once a decision, approve or reject, is applied to the rendered
    body of a record with a one-line title, the record exists in the
    dataset written, and no later fetch run finds it new. *)
Theorem decided_record_is_suppressed (env : Approve.Env) (w : Approve.World)
    (data : Dataset) (command : Approve.Command) (pub : PublicationRecord)
    (orcidPubs pubmedPubs : list PublicationRecord) :
  Approve.file w = Some data →
  Approve.parseCommand (orElse (Approve.ISSUE_COMMENT env) []) = Some command →
  Approve.ISSUE_BODY env = Some (Fetch.generateIssueBody pub) →
  oneLine (title pub) →
  ∃ data',
    Approve.file (Approve.main env w).2 = Some data'
    ∧ Fetch.publicationExists pub data' = true
    ∧ pub ∉ Fetch.newPublications data' orcidPubs pubmedPubs.
Proof.
  intros Hf Hc Hb Ht.
  rewrite (main_applies env w data command Hf Hc). rewrite Hb.
  eexists. split; [reflexivity|].
  set (entry := Approve.buildPublication env _).
  assert (Hm : Fetch.matchesExisting pub entry = true).
  { apply matches_by_title. subst entry. cbn [c_title Approve.buildPublication].
    assert (Hbody : orElse (Some (Fetch.generateIssueBody pub)) []
                    = Fetch.generateIssueBody pub).
    { rewrite generateIssueBody_eq. reflexivity. }
    by rewrite Hbody, parsed_title, normalizeTitle_trim. }
  assert (Hex : Fetch.publicationExists pub
    {| approved := approved (Approve.applyDecision command entry data);
       pending := pending (Approve.applyDecision command entry data);
       rejected := rejected (Approve.applyDecision command entry data);
       lastUpdated := Approve.currentIso env |} = true).
  { apply publicationExists_iff. exists entry. split; [|done].
    unfold Approve.applyDecision. destruct (Approve.action command); simpl.
    - left. apply elem_of_app. right. by left.
    - right; right. apply elem_of_app. right. by left. }
  split; [exact Hex|].
  unfold Fetch.newPublications. rewrite list_elem_of_filter.
  intros [Hn _]. simpl in *. congruence.
Qed.

(** ** Years and issue titles *)

Section Years.

Lemma digit_not_sign c :
  is_digit c = true →
  is_ws c = false ∧ (c =? 45) = false ∧ (c =? 43) = false
  ∧ (c =? 120) = false ∧ (c =? 88) = false.
Proof.
  intros H. destruct (digit_props c H) as (Hws & _ & _).
  unfold is_digit in H. apply andb_true_iff in H as [H1 H2].
  apply N.leb_le in H1, H2.
  repeat split; [done | | | |]; apply N.eqb_neq; lia.
Qed.

Lemma parseIntAny_digits ds :
  ds ≠ [] → Forall (λ c, is_digit c = true) ds →
  parseIntAny ds = Some (parseInt ds).
Proof.
  intros Hne Hall. unfold parseIntAny, parseInt.
  destruct ds as [|c ds]; [done|].
  pose proof Hall as Hall'. apply Forall_cons in Hall' as [Hc Hds].
  destruct (digit_not_sign c Hc) as (Hws & Hm & Hp & _).
  cbn [trimStart]. rewrite Hws, Hm, Hp. cbn [orb].
  assert (Hhex : match c :: ds with
                 | c0 :: x :: _ => (c0 =? 48) && ((x =? 120) || (x =? 88))
                 | _ => false
                 end = false).
  { destruct ds as [|x ds]; [done|].
    apply Forall_cons in Hds as [Hx _].
    destruct (digit_not_sign x Hx) as (_ & _ & _ & -> & ->).
    by rewrite andb_false_r. }
  rewrite Hhex. rewrite (run_all is_digit (c :: ds)) by done. done.
Qed.

End Years.

(** X28.  A year made of digits is read as the number they write: the whole
    year value of ORCID, when that number is below 2^53 (above, the number
    read is the nearest one the number type holds), and the first four
    code units of the PubMed date. *)
Theorem provider_years (ds rest : str) :
  ds ≠ [] → Forall (λ c, is_digit c = true) ds →
  (∀ workSummary,
      FetchScript.ws_year workSummary = Some ds →
      (parseInt ds < 2 ^ 53)%Z →
      year (FetchScript.orcidRecord workSummary) = Some (parseInt ds))
  ∧ (∀ pmid0 article,
      length ds = 4%nat →
      FetchScript.a_pubdate article = Some (ds ++ rest) →
      year (FetchScript.pubmedRecord pmid0 article) = Some (parseInt ds)).
Proof.
  intros Hne Hall. split.
  - intros ws Hy _. unfold FetchScript.orcidRecord, FetchScript.yearOf; cbn [year].
    rewrite Hy. destruct ds as [|c ds]; [done|]. cbn [truthy default].
    by apply parseIntAny_digits.
  - intros pmid0 article Hlen Hd.
    unfold FetchScript.pubmedRecord; cbn [year]. rewrite Hd.
    assert (Ht : truthy (Some (ds ++ rest)) = true) by by destruct ds.
    rewrite Ht. change (default [] (Some (ds ++ rest))) with (ds ++ rest).
    unfold str in *. rewrite take_app_length' by done. by apply parseIntAny_digits.
Qed.


(** ** Instances of the properties above *)

Lemma same_title_exists_witness :
  let e := {| c_id := js "pub-2020-abc"; c_title := js "hello world";
              c_authors := []; c_journal := []; c_year := None;
              c_doi := Some (js "10.1/old"); c_pmid := None; c_links := ∅ |} in
  let data := {| approved := [e]; pending := []; rejected := [];
                 lastUpdated := [] |} in
  Fetch.publicationExists
    (sampleRecord (js "Hello, World!") (Some (js "10.1/new")) orcid) data = true.
Proof.
  intros e data.
  apply (same_title_exists _ data e); [left; by apply list_elem_of_singleton|].
  vm_compute. reflexivity.
Defined.

Lemma uniquePubs_covers_witness :
  let a := sampleRecord (js "Foo") (Some (js "10.1/x")) orcid in
  let b := sampleRecord (js "Foo again") (Some (js "10.1/x")) pubmed in
  ∃ r', r' ∈ Fetch.uniquePubs [a] [b] ∧ Fetch.dedupKey r' = Fetch.dedupKey b.
Proof.
  intros a b. apply (uniquePubs_covers [a] [b] b).
  apply elem_of_app. right. by apply list_elem_of_singleton.
Defined.

Lemma newPublications_empty_dataset_witness :
  let a := sampleRecord (js "Foo") (Some (js "10.1/x")) orcid in
  Fetch.newPublications emptyDataset [a] [] = Fetch.uniquePubs [a] [].
Proof.
  intros a. apply (newPublications_empty_dataset emptyDataset [a] []);
    reflexivity.
Defined.

Lemma main_never_proposes_existing_witness :
  ∃ pub,
    pub ∈ (FetchScript.fetchOrcidPublications sampleNet).1
          ++ (FetchScript.fetchPubmedPublications sampleFetchEnv sampleNet).1
    ∧ js "[New Publication] Foo..." = FetchScript.issueTitle pub
    ∧ Fetch.publicationExists pub emptyDataset = false.
Proof.
  destruct (main_never_proposes_existing sampleFetchEnv sampleNet emptyDataset
              (js "lab/site") (js "t0ken") (js "[New Publication] Foo...")
              (Fetch.generateIssueBody
                 {| title := js "Foo"; authors := None; journal := [];
                    year := Some 2020%Z; doi := Some (js "10.1/x");
                    pmid := None; source := orcid |})
              [js "publication"; js "pending-review"])
    as (pub & H1 & H2 & _ & H3).
  - vm_compute. do 3 right. left.
  - by exists pub.
Defined.

Lemma pubmed_summary_request_witness :
  FetchScript.searchAnswer sampleNet = FetchScript.Ok (Some [js "123"])
  ∧ [js "123"] ≠ [].
Proof.
  apply (pubmed_summary_request sampleFetchEnv sampleNet [js "123"] []).
  vm_compute. right. left.
Defined.


Lemma provider_years_witness :
  year (FetchScript.orcidRecord
          {| FetchScript.ws_title := Some (js "Foo");
             FetchScript.ws_year := Some (js "2024");
             FetchScript.ws_journal := None;
             FetchScript.ws_external_ids := [] |}) = Some 2024%Z
  ∧ year (FetchScript.pubmedRecord (js "123")
            {| FetchScript.a_title := Some (js "Foo");
               FetchScript.a_authors := Some [js "Rubin BE"; js "Doe J"];
               FetchScript.a_source := Some (js "Nature");
               FetchScript.a_pubdate := Some (js "2024 Jan 15");
               FetchScript.a_articleids := None |}) = Some 2024%Z.
Proof.
  destruct (provider_years (js "2024") (js " Jan 15")) as [Ho Hp].
  - discriminate.
  - apply (bool_decide_unpack _). vm_compute. exact I.
  - split.
    + apply Ho; [reflexivity | vm_compute; reflexivity].
    + apply (Hp (js "123")); reflexivity.
Defined.

Lemma parseCommand_wellformed_witness :
  Forall (λ c, not_ws c = true) (js "10.5/y").
Proof.
  apply (parseCommand_wellformed (js "ok /approve  DOI:10.5/y thanks")
           {| Approve.action := Approve.approve; Approve.idType := js "DOI";
              Approve.idValue := js "10.5/y" |}).
  vm_compute. reflexivity.
Defined.

Lemma command_templates_parse_back_witness :
  let pub := sampleRecord (js "Foo") (Some (js "10.5/y")) orcid in
  Approve.parseCommand (js "/reject " ++ Fetch.commandId pub)
  = Some {| Approve.action := Approve.reject; Approve.idType := js "doi";
            Approve.idValue := js "10.5/y" |}.
Proof.
  intros pub.
  apply (command_templates_parse_back pub (js "doi") (js "10.5/y")).
  - left. split; reflexivity.
  - discriminate.
  - apply (bool_decide_unpack _). vm_compute. exact I.
Defined.

Lemma parseIssueBody_without_labels_witness :
  Approve.parseIssueBody (js "Title: Foo * DOI: 10.5/y")
  = {| d_title := []; d_authors := []; d_journal := []; d_year := None;
       d_doi := None; d_pmid := None |}.
Proof.
  apply (parseIssueBody_without_labels (js "Title: Foo * DOI: 10.5/y")).
  reflexivity.
Defined.

Lemma parsed_title_is_trimmed_witness :
  let pub := sampleRecord (js "  Foo **bar**  ") None orcid in
  d_title (Approve.parseIssueBody (Fetch.generateIssueBody pub))
  = js "Foo **bar**".
Proof.
  intros pub. apply (parsed_title_is_trimmed pub). split.
  - apply (bool_decide_unpack _). vm_compute. exact I.
  - apply (bool_decide_unpack _). vm_compute. exact I.
Defined.

Lemma decision_applied_twice_witness :
  let env := sampleEnv (js "/approve doi:10.5/y") (js "**Title:** Foo") in
  let w := {| Approve.file := Some emptyDataset; Approve.fsTrace := [] |} in
  ∃ data2,
    Approve.file (Approve.main env (Approve.main env w).2).2 = Some data2
    ∧ length (approved data2) = 2%nat.
Proof.
  intros env w.
  destruct (decision_applied_twice env env w emptyDataset
              {| Approve.action := Approve.approve; Approve.idType := js "doi";
                 Approve.idValue := js "10.5/y" |})
    as (data2 & H1 & H2); [reflexivity | reflexivity | reflexivity | reflexivity |].
  exists data2. split; [exact H1|]. cbn in H2. by rewrite H2.
Defined.

Lemma decided_record_is_suppressed_witness :
  let pub := sampleRecord (js "Foo") None orcid in
  let env := sampleEnv (js "/reject pmid:null") (Fetch.generateIssueBody pub) in
  let w := {| Approve.file := Some emptyDataset; Approve.fsTrace := [] |} in
  ∃ data',
    Approve.file (Approve.main env w).2 = Some data'
    ∧ Fetch.publicationExists pub data' = true.
Proof.
  intros pub env w.
  destruct (decided_record_is_suppressed env w emptyDataset
              {| Approve.action := Approve.reject; Approve.idType := js "pmid";
                 Approve.idValue := js "null" |} pub [] [])
    as (data' & H1 & H2 & _).
  - reflexivity.
  - vm_compute. reflexivity.
  - reflexivity.
  - split; apply (bool_decide_unpack _); vm_compute; exact I.
  - by exists data'.
Defined.
